(** * tilepix: the TMX decoding pipeline of [tmx.go] and [object.go]

    A shallow embedding of the decoding core of the package: layer payload
    decoding (XML tile records, CSV, base64), GID resolution against the
    map's tilesets, the assembly done by [Read], the point-list decoder and
    the shape queries of [Object].

    Conventions.
    - Go's [int] is the 64-bit signed integer of the usual targets, a [Z]
      with its wrap-around written out ([wrap_int]); [GID] and [ID] are
      [uint32], a [Z] wrapped by [wrap_u32].
    - A Go function returning [(value, error)] returns a [result]; a run-time
      panic (index out of range, negative [make] length) is [Panic].
    - A [*Tileset] obtained as [&m.Tilesets[i]] is the index [i]; the nil
      pointer is [None].  A [*DecodedTile] is modelled by the value it
      points to: the package never writes through such a pointer and never
      compares two of them.
    - Code of other packages (encoding/xml, encoding/base64, compress/gzip,
      compress/zlib, bytes.TrimSpace) is a parameter of the section that
      uses it.  [strings.Split], [strings.Map], [strconv.ParseUint] and
      [strconv.Atoi] are written out after Go's standard library.
    - The log records and the fields that only drawing uses (opacity,
      images, sprites, batches, the back pointers to the map) are left
      out. *)

From Stdlib Require Import ZArith Lia List Bool Floats.
From Stdlib.Strings Require Import Ascii String Byte.
From stdpp Require Import base list.

Open Scope string_scope.
Open Scope Z_scope.

(** ** Errors and results *)

(** The [Err] field of a [*strconv.NumError]. *)
Inductive strconv_err : Type :=
| ErrSyntax
| ErrRange.

(** The package's error values, the [*strconv.NumError] that [decodeCSV] and
    [decodePoints] pass on, and the errors of the other packages.
    [ErrInvalidObjectType] is the error that [object.go] returns; its
    declaration is in a file that is not among the sources. *)
Inductive error : Type :=
| UnknownEncodingError
| UnknownCompressionError
| InvalidDecodedDataLenError
| InvalidGIDError
| InvalidPointsFieldError
| InfiniteMapError
| ErrInvalidObjectType
| NumError (Func Num : string) (Err : strconv_err)
| ForeignError (msg : string).

Inductive result (A : Type) : Type :=
| Ok (a : A)
| Err (e : error)
| Panic.

Arguments Ok {A} a.
Arguments Err {A} e.
Arguments Panic {A}.

Definition bind {A B : Type} (r : result A) (k : A -> result B) : result B :=
  match r with
  | Ok a => k a
  | Err e => Err e
  | Panic => Panic
  end.

Notation "'let*' x ':=' r 'in' k" := (bind r (fun x => k))
  (at level 10, x pattern, r at level 100, k at level 200).

(** ** Machine integers *)

Definition wrap_int (z : Z) : Z := (z + 2 ^ 63) mod 2 ^ 64 - 2 ^ 63.
Definition int_add (a b : Z) : Z := wrap_int (a + b).
Definition int_mul (a b : Z) : Z := wrap_int (a * b).

Definition wrap_u32 (z : Z) : Z := z mod 2 ^ 32.
Definition u32_add (a b : Z) : Z := wrap_u32 (a + b).
Definition u32_sub (a b : Z) : Z := wrap_u32 (a - b).
Definition u32_shl (a : Z) (n : Z) : Z := wrap_u32 (Z.shiftl a n).

Definition is_int (z : Z) : Prop := - 2 ^ 63 <= z < 2 ^ 63.
Definition is_u32 (z : Z) : Prop := 0 <= z < 2 ^ 32.

(** ** The GID flag constants *)

Definition gidHorizontalFlip : Z := 0x80000000.
Definition gidVerticalFlip : Z := 0x40000000.
Definition gidDiagonalFlip : Z := 0x20000000.
Definition gidFlip : Z :=
  Z.lor (Z.lor gidHorizontalFlip gidVerticalFlip) gidDiagonalFlip.

(** ** The document model *)

Record DataTile : Type := { DataTile_GID : Z }.

Record Data : Type := {
  Data_Encoding : string;
  Data_Compression : string;
  Data_RawData : string;
  Data_DataTiles : list DataTile
}.

Record Property : Type := { Property_Name : string; Property_Value : string }.

Record Tileset : Type := {
  Tileset_FirstGID : Z;
  Tileset_Source : string;
  Tileset_Name : string;
  Tileset_TileWidth : Z;
  Tileset_TileHeight : Z;
  Tileset_Tilecount : Z;
  Tileset_Columns : Z
}.

Record DecodedTile : Type := {
  DecodedTile_ID : Z;
  DecodedTile_Tileset : option nat;
  DecodedTile_HorizontalFlip : bool;
  DecodedTile_VerticalFlip : bool;
  DecodedTile_DiagonalFlip : bool;
  DecodedTile_Nil : bool
}.

(** [NilTile = &DecodedTile{Nil: true}]: every other field has its zero
    value. *)
Definition NilTile : DecodedTile := {|
  DecodedTile_ID := 0;
  DecodedTile_Tileset := None;
  DecodedTile_HorizontalFlip := false;
  DecodedTile_VerticalFlip := false;
  DecodedTile_DiagonalFlip := false;
  DecodedTile_Nil := true
|}.

Definition IsNil (t : DecodedTile) : bool := DecodedTile_Nil t.

Record Layer : Type := {
  Layer_Name : string;
  Layer_Visible : bool;
  Layer_Properties : list Property;
  Layer_Data : Data;
  Layer_DecodedTiles : list DecodedTile;
  Layer_Tileset : option nat;
  Layer_Empty : bool
}.

Record Map : Type := {
  Map_Version : string;
  Map_Orientation : string;
  Map_Width : Z;
  Map_Height : Z;
  Map_TileWidth : Z;
  Map_TileHeight : Z;
  Map_Properties : list Property;
  Map_Tilesets : list Tileset;
  Map_Layers : list Layer;
  Map_Infinite : Z
}.

(** ** GID resolution: [Map.decodeGID] *)

(** The loop [for i := len(m.Tilesets) - 1; i >= 0; i--], entered with
    [n = i + 1]. *)
Fixpoint decodeGID_scan (m : Map) (gid gidBare : Z) (n : nat) : result DecodedTile :=
  match n with
  | O => Err InvalidGIDError
  | S i =>
      match Map_Tilesets m !! i with
      | None => Panic
      | Some ts =>
          if Tileset_FirstGID ts <=? gidBare then
            Ok {| DecodedTile_ID := u32_sub gidBare (Tileset_FirstGID ts);
                  DecodedTile_Tileset := Some i;
                  DecodedTile_HorizontalFlip := negb (Z.land gid gidHorizontalFlip =? 0);
                  DecodedTile_VerticalFlip := negb (Z.land gid gidVerticalFlip =? 0);
                  DecodedTile_DiagonalFlip := negb (Z.land gid gidDiagonalFlip =? 0);
                  DecodedTile_Nil := false |}
          else decodeGID_scan m gid gidBare i
      end
  end.

Definition decodeGID (m : Map) (gid : Z) : result DecodedTile :=
  if gid =? 0 then Ok NilTile
  else
    let gidBare := Z.ldiff gid gidFlip in
    decodeGID_scan m gid gidBare (length (Map_Tilesets m)).

(** The tile that [decodeGID] builds when tileset [i], [ts], is the owner. *)
Definition resolved (gid gidBare : Z) (i : nat) (ts : Tileset) : DecodedTile :=
  {| DecodedTile_ID := u32_sub gidBare (Tileset_FirstGID ts);
     DecodedTile_Tileset := Some i;
     DecodedTile_HorizontalFlip := negb (Z.land gid gidHorizontalFlip =? 0);
     DecodedTile_VerticalFlip := negb (Z.land gid gidVerticalFlip =? 0);
     DecodedTile_DiagonalFlip := negb (Z.land gid gidDiagonalFlip =? 0);
     DecodedTile_Nil := false |}.

(** ** [strings] and [strconv] *)

Definition byte_val (c : ascii) : Z := Z.of_N (N_of_ascii c).

Definition is_digit (c : ascii) : bool :=
  (byte_val "0" <=? byte_val c) && (byte_val c <=? byte_val "9").

(** [strings.Map]: the mapping returns [None] where Go's returns a negative
    rune, which drops the character.  A byte above 127 belongs to a
    multi-byte or invalid rune; the mappings used here drop those as well,
    so mapping byte by byte gives the same string. *)
Fixpoint strings_Map (mapping : ascii -> option ascii) (s : string) : string :=
  match s with
  | EmptyString => EmptyString
  | String c rest =>
      match mapping c with
      | Some c' => String c' (strings_Map mapping rest)
      | None => strings_Map mapping rest
      end
  end.

(** [strings.Split(s, sep)] for a separator of one character: the pieces
    between the separators, one more than there are separators. *)
Fixpoint strings_Split (s : string) (sep : ascii) : list string :=
  match s with
  | EmptyString => [EmptyString]
  | String c rest =>
      if Ascii.eqb c sep then EmptyString :: strings_Split rest sep
      else
        match strings_Split rest sep with
        | piece :: pieces => String c piece :: pieces
        | [] => [String c EmptyString]
        end
  end.

Definition syntaxError (fn str : string) : error := NumError fn str ErrSyntax.
Definition rangeError (fn str : string) : error := NumError fn str ErrRange.

Definition maxUint64 : Z := 2 ^ 64 - 1.

(** The digit loop of [strconv.ParseUint] in base 10; [n] is a [uint64]. *)
Fixpoint ParseUint_loop (s0 cs : string) (maxVal n : Z) : result Z :=
  match cs with
  | EmptyString => Ok n
  | String c rest =>
      if is_digit c then
        let d := byte_val c - byte_val "0" in
        if n >=? maxUint64 / 10 + 1 then Err (rangeError "ParseUint" s0)
        else
          let n := (n * 10) mod 2 ^ 64 in
          let n1 := (n + d) mod 2 ^ 64 in
          if (n1 <? n) || (n1 >? maxVal) then Err (rangeError "ParseUint" s0)
          else ParseUint_loop s0 rest maxVal n1
      else Err (syntaxError "ParseUint" s0)
  end.

(** [strconv.ParseUint(s, 10, bitSize)]. *)
Definition ParseUint (s : string) (bitSize : Z) : result Z :=
  match s with
  | EmptyString => Err (syntaxError "ParseUint" s)
  | _ =>
      let bitSize := if bitSize =? 0 then 64 else bitSize in
      ParseUint_loop s s (2 ^ bitSize - 1) 0
  end.

(** [strconv.ParseInt(s, 10, 0)]. *)
Definition ParseInt (s : string) : result Z :=
  match s with
  | EmptyString => Err (syntaxError "ParseInt" s)
  | String c rest =>
      let neg := Ascii.eqb c "-" in
      let s1 := if Ascii.eqb c "+" || neg then rest else s in
      match ParseUint s1 0 with
      | Err (NumError _ _ ErrSyntax) => Err (syntaxError "ParseInt" s)
      | Err (NumError _ _ ErrRange) => Err (rangeError "ParseInt" s)
      | Err e => Err e
      | Panic => Panic
      | Ok un =>
          let cutoff := 2 ^ 63 in
          if negb neg && (un >=? cutoff) then Err (rangeError "ParseInt" s)
          else if neg && (un >? cutoff) then Err (rangeError "ParseInt" s)
          else Ok (if neg then - un else un)
      end
  end.

(** The digit loop of the fast path of [strconv.Atoi]. *)
Fixpoint Atoi_loop (s0 cs : string) (n : Z) : result Z :=
  match cs with
  | EmptyString => Ok n
  | String ch rest =>
      if is_digit ch then
        Atoi_loop s0 rest (int_add (int_mul n 10) (byte_val ch - byte_val "0"))
      else Err (syntaxError "Atoi" s0)
  end.

(** [strconv.Atoi]: the fast path for short strings, [ParseInt] otherwise,
    whose [NumError] is renamed to [Atoi]. *)
Definition Atoi (s : string) : result Z :=
  let sLen := Z.of_nat (String.length s) in
  if (0 <? sLen) && (sLen <? 19) then
    match s with
    | EmptyString => Panic
    | String c rest =>
        let signed := Ascii.eqb c "-" || Ascii.eqb c "+" in
        let s1 := if signed then rest else s in
        if Z.of_nat (String.length s1) <? 1 then Err (syntaxError "Atoi" s)
        else
          let* n := Atoi_loop s s1 0 in
          Ok (if Ascii.eqb c "-" then - n else n)
    end
  else
    match ParseInt s with
    | Err (NumError _ num e) => Err (NumError "Atoi" num e)
    | r => r
    end.

(** ** The geometry decoder: [decodePoints] *)

Record Point : Type := { Point_X : Z; Point_Y : Z }.

Fixpoint decodePoints_loop (pointStrings : list string) : result (list Point) :=
  match pointStrings with
  | [] => Ok []
  | pointString :: rest =>
      match strings_Split pointString "," with
      | [cx; cy] =>
          let* x := Atoi cx in
          let* y := Atoi cy in
          let* points := decodePoints_loop rest in
          Ok ({| Point_X := x; Point_Y := y |} :: points)
      | _ => Err InvalidPointsFieldError
      end
  end.

Definition decodePoints (s : string) : result (list Point) :=
  decodePoints_loop (strings_Split s " ").

Record Polygon : Type := { Polygon_Points : string }.
Record PolyLine : Type := { PolyLine_Points : string }.

Definition Polygon_Decode (p : Polygon) : result (list Point) :=
  decodePoints (Polygon_Points p).
Definition PolyLine_Decode (p : PolyLine) : result (list Point) :=
  decodePoints (PolyLine_Points p).

(** ** The payload decoders *)

(** The [cleaner] of [decodeCSV]. *)
Definition cleaner (r : ascii) : option ascii :=
  if is_digit r || Ascii.eqb r "," then Some r else None.

Fixpoint decodeCSV_loop (str : list string) : result (list Z) :=
  match str with
  | [] => Ok []
  | s :: rest =>
      let* d := ParseUint s 32 in
      let* gids := decodeCSV_loop rest in
      Ok (wrap_u32 d :: gids)
  end.

Definition decodeCSV (d : Data) : result (list Z) :=
  let rawDataClean := strings_Map cleaner (Data_RawData d) in
  let str := strings_Split rawDataClean "," in
  decodeCSV_loop str.

Definition decodeLayerXML (l : Layer) (width height : Z) : result (list Z) :=
  let dataTiles := Data_DataTiles (Layer_Data l) in
  if negb (Z.of_nat (length dataTiles) =? int_mul width height) then
    Err InvalidDecodedDataLenError
  else Ok (map DataTile_GID dataTiles).

Definition decodeLayerCSV (l : Layer) (width height : Z) : result (list Z) :=
  let* gids := decodeCSV (Layer_Data l) in
  if negb (Z.of_nat (length gids) =? int_mul width height) then
    Err InvalidDecodedDataLenError
  else Ok gids.

(** [for i := start; i < start + n; i++ { s = body(i, s) }], left at the
    first error or panic. *)
Fixpoint for_range {S : Type} (start : Z) (n : nat) (body : Z -> S -> result S)
  (s : S) : result S :=
  match n with
  | O => Ok s
  | Datatypes.S n' =>
      let* s' := body start s in
      for_range (start + 1) n' body s'
  end.

(** The largest allocation of the Go runtime on a 64-bit target. *)
Definition maxAlloc : Z := 2 ^ 48.

(** [make([]GID, n)]: zeroes, or the panic "makeslice: len out of range". *)
Definition make_GIDs (n : Z) : result (list Z) :=
  if (n <? 0) || (maxAlloc <? 4 * n) then Panic
  else Ok (replicate (Z.to_nat n) 0).

Definition byte_num (b : byte) : Z := Z.of_N (Byte.to_N b).

(** [dataBytes[j]] as a number. *)
Definition byte_at (dataBytes : list byte) (j : Z) : result Z :=
  if j <? 0 then Panic
  else
    match dataBytes !! Z.to_nat j with
    | Some b => Ok (byte_num b)
    | None => Panic
    end.

(** [gids[idx] = gid]. *)
Definition store_GID (gids : list Z) (idx gid : Z) : result (list Z) :=
  if (idx <? 0) || (Z.of_nat (length gids) <=? idx) then Panic
  else Ok (<[Z.to_nat idx := gid]> gids).

(** The body of the inner loop of [decodeLayerBase64]; the state is the
    pair of [j] and [gids]. *)
Definition decodeLayerBase64_cell (dataBytes : list byte) (width y x : Z)
  (st : Z * list Z) : result (Z * list Z) :=
  let '(j, gids) := st in
  let* b0 := byte_at dataBytes j in
  let* b1 := byte_at dataBytes (int_add j 1) in
  let* b2 := byte_at dataBytes (int_add j 2) in
  let* b3 := byte_at dataBytes (int_add j 3) in
  let gid :=
    u32_add (u32_add (u32_add b0 (u32_shl b1 8)) (u32_shl b2 16)) (u32_shl b3 24) in
  let j := int_add j 4 in
  let* gids := store_GID gids (int_add (int_mul y width) x) gid in
  Ok (j, gids).

(** [decodeLayerBase64] after the call of [decodeBase64]. *)
Definition decodeLayerBase64_bytes (dataBytes : list byte) (width height : Z)
  : result (list Z) :=
  if negb (Z.of_nat (length dataBytes) =? int_mul (int_mul width height) 4) then
    Err InvalidDecodedDataLenError
  else
    let* gids := make_GIDs (int_mul width height) in
    let* st :=
      for_range 0 (Z.to_nat height)
        (fun y => for_range 0 (Z.to_nat width) (decodeLayerBase64_cell dataBytes width y))
        (0, gids) in
    Ok (snd st).

(** ** Tileset of a layer: [getTileset] *)

(** The loop of [getTileset] with the tileset found so far, and the
    returns after it. *)
Fixpoint getTileset_scan (tiles : list DecodedTile) (tileset : option nat)
  : option nat * bool * bool :=
  match tiles with
  | [] =>
      match tileset with
      | None => (None, true, false)
      | Some _ => (tileset, false, false)
      end
  | tile :: rest =>
      if negb (DecodedTile_Nil tile) then
        match tileset with
        | None => getTileset_scan rest (DecodedTile_Tileset tile)
        | Some _ =>
            if negb (bool_decide (tileset = DecodedTile_Tileset tile)) then
              (tileset, false, true)
            else getTileset_scan rest tileset
        end
      else getTileset_scan rest tileset
  end.

Definition getTileset (l : Layer) : option nat * bool * bool :=
  getTileset_scan (Layer_DecodedTiles l) None.

(** ** Layers and the map: [Layer.decode], [Map.decodeLayers], [Read] *)

Definition Layer_with_DecodedTiles (l : Layer) (tiles : list DecodedTile) : Layer :=
  {| Layer_Name := Layer_Name l;
     Layer_Visible := Layer_Visible l;
     Layer_Properties := Layer_Properties l;
     Layer_Data := Layer_Data l;
     Layer_DecodedTiles := tiles;
     Layer_Tileset := Layer_Tileset l;
     Layer_Empty := Layer_Empty l |}.

Definition Layer_with_Empty_Tileset (l : Layer) (isEmpty : bool)
  (tileset : option nat) : Layer :=
  {| Layer_Name := Layer_Name l;
     Layer_Visible := Layer_Visible l;
     Layer_Properties := Layer_Properties l;
     Layer_Data := Layer_Data l;
     Layer_DecodedTiles := Layer_DecodedTiles l;
     Layer_Tileset := tileset;
     Layer_Empty := isEmpty |}.

Definition Map_with_Layers (m : Map) (layers : list Layer) : Map :=
  {| Map_Version := Map_Version m;
     Map_Orientation := Map_Orientation m;
     Map_Width := Map_Width m;
     Map_Height := Map_Height m;
     Map_TileWidth := Map_TileWidth m;
     Map_TileHeight := Map_TileHeight m;
     Map_Properties := Map_Properties m;
     Map_Tilesets := Map_Tilesets m;
     Map_Layers := layers;
     Map_Infinite := Map_Infinite m |}.

(** The loop over [gids] of [decodeLayers]. *)
Fixpoint decodeGIDs (m : Map) (gids : list Z) : result (list DecodedTile) :=
  match gids with
  | [] => Ok []
  | gid :: rest =>
      let* decTile := decodeGID m gid in
      let* tiles := decodeGIDs m rest in
      Ok (decTile :: tiles)
  end.

(** The body of the last loop of [Read]: a layer that uses several
    tilesets is left as it is. *)
Definition Read_layer (l : Layer) : Layer :=
  let '(tileset, isEmpty, usesMultipleTilesets) := getTileset l in
  if usesMultipleTilesets then l
  else Layer_with_Empty_Tileset l isEmpty tileset.

Section Pipeline.

(** [bytes.TrimSpace]. *)
Variable bytes_TrimSpace : string -> string.
(** Reading a [base64.NewDecoder(base64.StdEncoding, _)] over a text to its
    end. *)
Variable base64_decode : string -> result (list byte).
(** [gzip.NewReader] and [zlib.NewReader] opened on the base64 decoder of a
    text and read to their end.  The decompressor pulls bytes from the
    base64 decoder as its stream asks for them and stops where the stream
    ends, so what it returns is a function of the text, and not of the
    decoding of the whole text: text after the end of the stream need not
    be base64. *)
Variable gzip_inflate : string -> result (list byte).
Variable zlib_inflate : string -> result (list byte).
(** [xml.NewDecoder(r).Decode(m)] on a fresh [Map]. *)
Variable xml_Decode : string -> result Map.

Definition decodeBase64 (d : Data) : result (list byte) :=
  let rawData := bytes_TrimSpace (Data_RawData d) in
  if String.eqb (Data_Compression d) "gzip" then gzip_inflate rawData
  else if String.eqb (Data_Compression d) "zlib" then zlib_inflate rawData
  else if String.eqb (Data_Compression d) "" then base64_decode rawData
  else Err UnknownCompressionError.

Definition decodeLayerBase64 (l : Layer) (width height : Z) : result (list Z) :=
  let* dataBytes := decodeBase64 (Layer_Data l) in
  decodeLayerBase64_bytes dataBytes width height.

Definition Layer_decode (l : Layer) (width height : Z) : result (list Z) :=
  if String.eqb (Data_Encoding (Layer_Data l)) "csv" then decodeLayerCSV l width height
  else if String.eqb (Data_Encoding (Layer_Data l)) "base64" then
    decodeLayerBase64 l width height
  else if String.eqb (Data_Encoding (Layer_Data l)) "" then decodeLayerXML l width height
  else Err UnknownEncodingError.

(** The loop over [m.Layers] of [decodeLayers]. *)
Fixpoint decodeLayers_loop (m : Map) (layers : list Layer) : result (list Layer) :=
  match layers with
  | [] => Ok []
  | l :: rest =>
      let* gids := Layer_decode l (Map_Width m) (Map_Height m) in
      let* tiles := decodeGIDs m gids in
      let* rest' := decodeLayers_loop m rest in
      Ok (Layer_with_DecodedTiles l tiles :: rest')
  end.

Definition decodeLayers (m : Map) : result Map :=
  let* layers := decodeLayers_loop m (Map_Layers m) in
  Ok (Map_with_Layers m layers).

Definition Read (r : string) : result Map :=
  let* m := xml_Decode r in
  if Map_Infinite m =? 1 then Err InfiniteMapError
  else
    let* m := decodeLayers m in
    Ok (Map_with_Layers m (map Read_layer (Map_Layers m))).

End Pipeline.

(** ** Objects: [object.go] *)

(** Modelled from the spec: the declaration of [ObjectType] and of its five
    constants is not among the sources; the shape of an object is one of
    polygon, polyline, ellipse, point or rectangle. *)
Inductive ObjectType : Type :=
| EllipseObj
| PolygonObj
| PolylineObj
| RectangleObj
| PointObj.

Definition ObjectType_eqb (a b : ObjectType) : bool :=
  match a, b with
  | EllipseObj, EllipseObj | PolygonObj, PolygonObj | PolylineObj, PolylineObj
  | RectangleObj, RectangleObj | PointObj, PointObj => true
  | _, _ => false
  end.

(** The geometry values of the pixel package: [pixel.Vec], [pixel.Circle]
    and [pixel.Rect] with their constructors [V], [C], [R] and [ZV]. *)
Record pixel_Vec : Type := { Vec_X : float; Vec_Y : float }.
Record pixel_Circle : Type := { Circle_Center : pixel_Vec; Circle_Radius : float }.
Record pixel_Rect : Type := { Rect_Min : pixel_Vec; Rect_Max : pixel_Vec }.

Definition pixel_V (x y : float) : pixel_Vec := {| Vec_X := x; Vec_Y := y |}.
Definition pixel_ZV : pixel_Vec := pixel_V 0 0.
Definition pixel_C (center : pixel_Vec) (radius : float) : pixel_Circle :=
  {| Circle_Center := center; Circle_Radius := radius |}.
Definition pixel_R (minX minY maxX maxY : float) : pixel_Rect :=
  {| Rect_Min := pixel_V minX minY; Rect_Max := pixel_V maxX maxY |}.

Record Object : Type := {
  Object_Name : string;
  Object_Type : string;
  Object_X : float;
  Object_Y : float;
  Object_Width : float;
  Object_Height : float;
  Object_GID : Z;
  Object_Visible : bool;
  Object_Polygon : option Polygon;
  Object_PolyLine : option PolyLine;
  Object_Properties : list Property;
  Object_Ellipse : option unit;
  Object_Point : option unit;
  Object_objectType : ObjectType
}.

Definition GetType (o : Object) : ObjectType := Object_objectType o.

Definition Object_with_objectType (o : Object) (t : ObjectType) : Object :=
  {| Object_Name := Object_Name o;
     Object_Type := Object_Type o;
     Object_X := Object_X o;
     Object_Y := Object_Y o;
     Object_Width := Object_Width o;
     Object_Height := Object_Height o;
     Object_GID := Object_GID o;
     Object_Visible := Object_Visible o;
     Object_Polygon := Object_Polygon o;
     Object_PolyLine := Object_PolyLine o;
     Object_Properties := Object_Properties o;
     Object_Ellipse := Object_Ellipse o;
     Object_Point := Object_Point o;
     Object_objectType := t |}.

Definition hydrateType (o : Object) : Object :=
  match Object_Polygon o with
  | Some _ => Object_with_objectType o PolygonObj
  | None =>
      match Object_PolyLine o with
      | Some _ => Object_with_objectType o PolylineObj
      | None =>
          match Object_Ellipse o with
          | Some _ => Object_with_objectType o EllipseObj
          | None =>
              match Object_Point o with
              | Some _ => Object_with_objectType o PointObj
              | None => Object_with_objectType o RectangleObj
              end
          end
      end
  end.

(** The queries return a geometry and an error, [None] for Go's nil. *)
Definition GetEllipse (o : Object) : pixel_Circle * option error :=
  if negb (ObjectType_eqb (GetType o) EllipseObj) then
    (pixel_C pixel_ZV 0, Some ErrInvalidObjectType)
  else
    let radius := ((Object_Width o + Object_Height o) / 4)%float in
    let centre :=
      pixel_V (Object_X o + Object_Width o / 2)%float
              (Object_Y o + Object_Height o / 2)%float in
    (pixel_C centre radius, None).

Definition GetPoint (o : Object) : pixel_Vec * option error :=
  if negb (ObjectType_eqb (GetType o) PointObj) then
    (pixel_ZV, Some ErrInvalidObjectType)
  else (pixel_V (Object_X o) (Object_Y o), None).

Definition GetRect (o : Object) : pixel_Rect * option error :=
  if negb (ObjectType_eqb (GetType o) RectangleObj) then
    (pixel_R 0 0 0 0, Some ErrInvalidObjectType)
  else
    (pixel_R (Object_X o) (Object_Y o)
       (Object_X o + Object_Width o)%float (Object_Y o + Object_Height o)%float,
     None).

(** The shape selected by the sub-elements of an object, read off the
    document: polygon, else polyline, else ellipse, else point, else
    rectangle. *)
Definition shape_kind (o : Object) : ObjectType :=
  if bool_decide (Object_Polygon o <> None) then PolygonObj
  else if bool_decide (Object_PolyLine o <> None) then PolylineObj
  else if bool_decide (Object_Ellipse o <> None) then EllipseObj
  else if bool_decide (Object_Point o <> None) then PointObj
  else RectangleObj.

(** ** Numerals and point tokens *)

Fixpoint all_digits (s : string) : bool :=
  match s with
  | EmptyString => true
  | String c rest => is_digit c && all_digits rest
  end.

(** An integer numeral: an optional sign and at least one decimal digit. *)
Definition is_numeral (s : string) : bool :=
  match s with
  | EmptyString => false
  | String c rest =>
      if Ascii.eqb c "-" || Ascii.eqb c "+" then
        negb (String.eqb rest "") && all_digits rest
      else all_digits s
  end.

(** A point token that conforms: two fields around one comma, both read by
    [Atoi], which give the point. *)
Definition point_token (token : string) (p : Point) : Prop :=
  exists cx cy,
    strings_Split token "," = [cx; cy] /\
    Atoi cx = Ok (Point_X p) /\ Atoi cy = Ok (Point_Y p).

(** The number that the decimal digits [cs] denote after the digits of
    [a]. *)
Fixpoint dec_value (cs : string) (a : Z) : Z :=
  match cs with
  | EmptyString => a
  | String c rest => dec_value rest (a * 10 + (byte_val c - byte_val "0"))
  end.

(** ** Encodings of a GID grid *)

(** The unsigned 32-bit integer that four bytes form in little-endian
    order. *)
Definition le32 (b0 b1 b2 b3 : Z) : Z :=
  b0 + 2 ^ 8 * b1 + 2 ^ 16 * b2 + 2 ^ 24 * b3.

(** The little-endian integer of the four bytes from offset [4 * k]. *)
Definition le32_at (dataBytes : list byte) (k : nat) : option Z :=
  match dataBytes !! (4 * k)%nat, dataBytes !! (4 * k + 1)%nat,
        dataBytes !! (4 * k + 2)%nat, dataBytes !! (4 * k + 3)%nat with
  | Some b0, Some b1, Some b2, Some b3 =>
      Some (le32 (byte_num b0) (byte_num b1) (byte_num b2) (byte_num b3))
  | _, _, _, _ => None
  end.

Definition byte_of_Z (z : Z) : byte :=
  match Byte.of_N (Z.to_N (z mod 2 ^ 8)) with
  | Some b => b
  | None => x00
  end.

(** The binary layer format: four bytes a GID, least significant first. *)
Fixpoint le_bytes (gids : list Z) : list byte :=
  match gids with
  | [] => []
  | gid :: rest =>
      byte_of_Z gid :: byte_of_Z (gid / 2 ^ 8) :: byte_of_Z (gid / 2 ^ 16)
        :: byte_of_Z (gid / 2 ^ 24) :: le_bytes rest
  end.

Definition digit_char (d : Z) : ascii := ascii_of_N (Z.to_N (byte_val "0" + d)).

(** The decimal digits of [n] before [acc], at most [fuel] of them. *)
Fixpoint decimal_acc (fuel : nat) (n : Z) (acc : string) : string :=
  match fuel with
  | O => acc
  | S fuel' =>
      let acc' := String (digit_char (n mod 10)) acc in
      if n / 10 =? 0 then acc' else decimal_acc fuel' (n / 10) acc'
  end.

(** The decimal numeral of a [uint32]. *)
Definition decimal (n : Z) : string := decimal_acc 10 n "".

Fixpoint join_commas (tokens : list string) : string :=
  match tokens with
  | [] => ""
  | [token] => token
  | token :: rest => token ++ String "," (join_commas rest)
  end.

(** The CSV layer format: the decimal numerals of the GIDs, with commas
    between them. *)
Definition encodeCSV (gids : list Z) : string := join_commas (map decimal gids).

(** The state of the loops of [decodeLayerBase64] after [c] cells of a grid
    of [n] cells: [j] has passed [c] groups of four bytes, and the first
    [c] GIDs are the little-endian integers of these groups. *)
Definition cells_done (dataBytes : list byte) (n c : Z) (st : Z * list Z) : Prop :=
  fst st = 4 * c /\
  Z.of_nat (length (snd st)) = n /\
  forall k : nat, Z.of_nat k < c ->
    exists v, le32_at dataBytes k = Some v /\ snd st !! k = Some v.

(** ** Sample documents *)

Definition sample_tileset (firstGID : Z) : Tileset :=
  {| Tileset_FirstGID := firstGID;
     Tileset_Source := "";
     Tileset_Name := "tiles";
     Tileset_TileWidth := 16;
     Tileset_TileHeight := 16;
     Tileset_Tilecount := 10;
     Tileset_Columns := 5 |}.

Definition sample_layer (encoding compression rawData : string)
  (dataTiles : list DataTile) : Layer :=
  {| Layer_Name := "Tile Layer 1";
     Layer_Visible := true;
     Layer_Properties := [];
     Layer_Data :=
       {| Data_Encoding := encoding;
          Data_Compression := compression;
          Data_RawData := rawData;
          Data_DataTiles := dataTiles |};
     Layer_DecodedTiles := [];
     Layer_Tileset := None;
     Layer_Empty := false |}.

(** An orthogonal map with tilesets starting at GID 1 and at GID 11. *)
Definition sample_map (width height infinite : Z) (layers : list Layer) : Map :=
  {| Map_Version := "";
     Map_Orientation := "orthogonal";
     Map_Width := width;
     Map_Height := height;
     Map_TileWidth := 16;
     Map_TileHeight := 16;
     Map_Properties := [];
     Map_Tilesets := [sample_tileset 1; sample_tileset 11];
     Map_Layers := layers;
     Map_Infinite := infinite |}.

(** A rectangle object: no polygon, polyline, ellipse or point element. *)
Definition sample_rectangle : Object :=
  {| Object_Name := "door";
     Object_Type := "";
     Object_X := 8;
     Object_Y := 16;
     Object_Width := 32;
     Object_Height := 24;
     Object_GID := 0;
     Object_Visible := true;
     Object_Polygon := None;
     Object_PolyLine := None;
     Object_Properties := [];
     Object_Ellipse := None;
     Object_Point := None;
     Object_objectType := EllipseObj |}.

(** An object with an ellipse element whose stored type is that of a
    rectangle. *)
Definition sample_ellipse : Object :=
  {| Object_Name := "pond";
     Object_Type := "";
     Object_X := 8;
     Object_Y := 16;
     Object_Width := 32;
     Object_Height := 24;
     Object_GID := 0;
     Object_Visible := true;
     Object_Polygon := None;
     Object_PolyLine := None;
     Object_Properties := [];
     Object_Ellipse := Some tt;
     Object_Point := None;
     Object_objectType := RectangleObj |}.

(** Stand-ins for the other packages in the examples: no trimming, no
    decompression, a document that parses to a given map, and a decoder of
    base64. *)
Definition plain_TrimSpace (s : string) : string := s.
Definition no_inflate (s : string) : result (list byte) :=
  Err (ForeignError "unexpected EOF").
(** The value of a character of the standard base64 alphabet. *)
Definition base64_value (c : ascii) : option Z :=
  let v := byte_val c in
  if (byte_val "A" <=? v) && (v <=? byte_val "Z") then Some (v - byte_val "A")
  else if (byte_val "a" <=? v) && (v <=? byte_val "z") then Some (v - byte_val "a" + 26)
  else if is_digit c then Some (v - byte_val "0" + 52)
  else if Ascii.eqb c "+" then Some 62
  else if Ascii.eqb c "/" then Some 63
  else None.

(** A decoder of padded standard base64, four characters at a time. *)
Fixpoint base64_std (s : string) : result (list byte) :=
  match s with
  | EmptyString => Ok []
  | String c0 (String c1 (String c2 (String c3 rest))) =>
      match base64_value c0, base64_value c1 with
      | Some v0, Some v1 =>
          let b0 := byte_of_Z (v0 * 4 + v1 / 16) in
          match base64_value c2, base64_value c3, rest with
          | Some v2, Some v3, _ =>
              let* bytes := base64_std rest in
              Ok (b0 :: byte_of_Z (v1 * 16 + v2 / 4) :: byte_of_Z (v2 * 64 + v3) :: bytes)
          | Some v2, None, EmptyString =>
              if Ascii.eqb c3 "=" then Ok [b0; byte_of_Z (v1 * 16 + v2 / 4)]
              else Err (ForeignError "illegal base64 data")
          | None, None, EmptyString =>
              if Ascii.eqb c2 "=" && Ascii.eqb c3 "=" then Ok [b0]
              else Err (ForeignError "illegal base64 data")
          | _, _, _ => Err (ForeignError "illegal base64 data")
          end
      | _, _ => Err (ForeignError "illegal base64 data")
      end
  | _ => Err (ForeignError "illegal base64 data")
  end.

Definition parses_to (m : Map) (r : string) : result Map := Ok m.

(** An infinite map whose only layer has an encoding that is not known. *)
Definition sample_infinite : Map :=
  sample_map 2 2 1 [sample_layer "hex" "" "00" []].

(** A 2 by 2 map with a layer of the first tileset, a layer of both
    tilesets and a layer without tiles. *)
Definition sample_three_layers : Map :=
  sample_map 2 2 0
    [sample_layer "csv" "" "1,2,0,3" [];
     sample_layer "csv" "" "1,12,0,0" [];
     sample_layer "csv" "" "0,0,0,0" []].



(** The same four GIDs as tile records, as CSV text and as base64. *)
Definition sample_xml_layer : Layer :=
  sample_layer "" "" ""
    [{| DataTile_GID := 1 |}; {| DataTile_GID := 2147483650 |};
     {| DataTile_GID := 259 |}; {| DataTile_GID := 4294967295 |}].

Definition sample_csv_layer : Layer :=
  sample_layer "csv" "" "
1,2147483650,
259,4294967295
" [].

Definition sample_base64_layer : Layer :=
  sample_layer "base64" "" "AQAAAAIAAIADAQAA/////w==" [].

(** ** Derived notions for the properties of the resolver *)

(** The GID that a resolved tile of a tileset starting at [firstGID] stands
    for: the first GID of the tileset plus the local ID, with the three
    flip bits. *)
Definition encodeGID (firstGID : Z) (t : DecodedTile) : Z :=
  firstGID + DecodedTile_ID t
  + (if DecodedTile_HorizontalFlip t then gidHorizontalFlip else 0)
  + (if DecodedTile_VerticalFlip t then gidVerticalFlip else 0)
  + (if DecodedTile_DiagonalFlip t then gidDiagonalFlip else 0).

(** The tilesets of a map are in ascending order of FirstGID. *)
Definition ascending_FirstGID (m : Map) : Prop :=
  forall (i j : nat) (a b : Tileset),
    (i < j)%nat ->
    Map_Tilesets m !! i = Some a -> Map_Tilesets m !! j = Some b ->
    Tileset_FirstGID a <= Tileset_FirstGID b.

(** The tokens that [decodeCSV] parses: the pieces between the commas of the
    text cleaned of everything but digits and commas. *)
Definition csv_tokens (d : Data) : list string :=
  strings_Split (strings_Map cleaner (Data_RawData d)) ",".

(** A CSV token that [decodeCSV] accepts as [gid]: digits, one at least,
    that denote [gid], which fits 32 bits. *)
Definition csv_token (token : string) (gid : Z) : Prop :=
  token <> "" /\ dec_value token 0 = gid /\ gid <= 2 ^ 32 - 1.

(** ** Derived notions for the properties of [decodePoints] *)

(** How often a character occurs in a string. *)
Fixpoint count_char (c : ascii) (s : string) : nat :=
  match s with
  | EmptyString => 0%nat
  | String c' rest => ((if Ascii.eqb c' c then 1 else 0) + count_char c rest)%nat
  end.

(** The decimal numeral of an [int], as [strconv.Itoa] writes it: a minus
    sign for a negative number, and the digits. *)
Definition FormatInt (n : Z) : string :=
  if n <? 0 then String "-" (decimal_acc 19 (- n) "") else decimal_acc 19 n "".

(** A point as a token of a points attribute, ["x,y"]. *)
Definition encodePoint (p : Point) : string :=
  FormatInt (Point_X p) ++ String "," (FormatInt (Point_Y p)).

(** The points attribute of a polygon or polyline: the tokens of the
    points, with one space between them. *)
Fixpoint encodePoints (points : list Point) : string :=
  match points with
  | [] => ""
  | [p] => encodePoint p
  | p :: rest => encodePoint p ++ String " " (encodePoints rest)
  end.

(** A map whose second layer has an encoding that is not known, and a map
    whose layer holds a GID of flip bits only. *)
Definition sample_unknown_encoding : Map :=
  sample_map 2 2 0
    [sample_layer "csv" "" "1,2,0,3" []; sample_layer "hex" "" "00" []].

Definition sample_invalid_gid : Map :=
  sample_map 2 2 0 [sample_layer "csv" "" "1,2147483648,0,0" []].

(** A decoder that rejects every payload. *)
Definition reject_base64 (s : string) : result (list byte) :=
  Err (ForeignError "illegal base64 data").

(** * Properties *)

(** ** Machine integers *)

Lemma wrap_int_small (z : Z) : is_int z -> wrap_int z = z.
Proof.
  unfold is_int, wrap_int. intros H.
  rewrite Z.mod_small by lia. lia.
Qed.

Lemma wrap_int_range (z : Z) : is_int (wrap_int z).
Proof.
  unfold is_int, wrap_int.
  pose proof (Z.mod_pos_bound (z + 2 ^ 63) (2 ^ 64) ltac:(lia)). lia.
Qed.

Lemma wrap_u32_small (z : Z) : is_u32 z -> wrap_u32 z = z.
Proof. unfold is_u32, wrap_u32. intros H. apply Z.mod_small. lia. Qed.

(** ** The flag bits of a GID *)

Lemma gidFlip_bits (n : Z) :
  0 <= n -> Z.testbit gidFlip n = (29 <=? n) && (n <=? 31).
Proof.
  intros Hn. change gidFlip with (Z.shiftl 7 29).
  destruct (Z.ltb_spec n 29) as [Hlt | Hge].
  - rewrite Z.shiftl_spec_low by lia.
    destruct (Z.leb_spec 29 n); [lia | reflexivity].
  - rewrite Z.shiftl_spec by lia.
    destruct (Z.leb_spec 29 n); [| lia]. simpl.
    destruct (Z.leb_spec n 31) as [Hle | Hgt].
    + assert (Hc : n - 29 = 0 \/ n - 29 = 1 \/ n - 29 = 2) by lia.
      destruct Hc as [-> | [-> | ->]]; reflexivity.
    + apply Z.bits_above_log2; [lia |].
      change (Z.log2 7) with 2. lia.
Qed.

(** Clearing [gidFlip] keeps the low 29 bits of a 32-bit GID. *)
Lemma ldiff_gidFlip (gid : Z) :
  is_u32 gid -> Z.ldiff gid gidFlip = gid mod 2 ^ 29.
Proof.
  intros [Hlo Hhi]. apply Z.bits_inj'. intros n Hn.
  rewrite Z.ldiff_spec, gidFlip_bits by lia.
  destruct (Z.ltb_spec n 29) as [Hlt | Hge].
  - rewrite Z.mod_pow2_bits_low by lia.
    destruct (Z.leb_spec 29 n); [lia |]. simpl. apply andb_true_r.
  - rewrite Z.mod_pow2_bits_high by lia.
    destruct (Z.leb_spec 29 n); [| lia]. simpl.
    destruct (Z.leb_spec n 31) as [Hle | Hgt]; simpl.
    + apply andb_false_r.
    + rewrite andb_true_r.
      destruct (Z.eq_dec gid 0) as [-> | Hnz]; [apply Z.testbit_0_l |].
      apply Z.bits_above_log2; [lia |].
      apply Z.log2_lt_pow2; [lia |].
      apply Z.lt_le_trans with (2 ^ 32); [lia |].
      apply Z.pow_le_mono_r; lia.
Qed.

Lemma gidBare_range (gid : Z) : 0 <= gid mod 2 ^ 29 < 2 ^ 29.
Proof. apply Z.mod_pos_bound. lia. Qed.

(** ** [decodeGID] *)

(** The scan stops at the last tileset, below [n], that starts at or below
    the bare GID. *)
Lemma decodeGID_scan_owner (m : Map) (gid gidBare : Z) (n i : nat) (ts : Tileset) :
  (i < n)%nat ->
  Map_Tilesets m !! i = Some ts ->
  Tileset_FirstGID ts <= gidBare ->
  (forall j ts', (i < j)%nat -> (j < n)%nat -> Map_Tilesets m !! j = Some ts' ->
                 gidBare < Tileset_FirstGID ts') ->
  (n <= length (Map_Tilesets m))%nat ->
  decodeGID_scan m gid gidBare n = Ok (resolved gid gidBare i ts).
Proof.
  induction n as [| k IH]; intros Hi Hts Hle Hafter Hn; [lia |].
  simpl. destruct (decide (i = k)) as [-> | Hne].
  - rewrite Hts. destruct (Z.leb_spec (Tileset_FirstGID ts) gidBare); [reflexivity | lia].
  - destruct (lookup_lt_is_Some_2 (Map_Tilesets m) k ltac:(lia)) as [ts' Hk].
    rewrite Hk.
    pose proof (Hafter k ts' ltac:(lia) ltac:(lia) Hk) as Hk'.
    destruct (Z.leb_spec (Tileset_FirstGID ts') gidBare); [lia |].
    apply IH; [lia | assumption | assumption | | lia].
    intros j ts'' Hij Hjk. apply Hafter; lia.
Qed.

Lemma decodeGID_scan_none (m : Map) (gid gidBare : Z) (n : nat) :
  (forall j ts, (j < n)%nat -> Map_Tilesets m !! j = Some ts ->
                gidBare < Tileset_FirstGID ts) ->
  (n <= length (Map_Tilesets m))%nat ->
  decodeGID_scan m gid gidBare n = Err InvalidGIDError.
Proof.
  induction n as [| k IH]; intros Hall Hn; [reflexivity |].
  simpl.
  destruct (lookup_lt_is_Some_2 (Map_Tilesets m) k ltac:(lia)) as [ts Hk].
  rewrite Hk. pose proof (Hall k ts ltac:(lia) Hk).
  destruct (Z.leb_spec (Tileset_FirstGID ts) gidBare); [lia |].
  apply IH; [| lia]. intros j ts' Hj. apply Hall. lia.
Qed.

(** Whatever the scan returns, it is not the nil tile. *)
Lemma decodeGID_scan_not_nil (m : Map) (gid gidBare : Z) (n : nat) (t : DecodedTile) :
  decodeGID_scan m gid gidBare n = Ok t -> DecodedTile_Nil t = false.
Proof.
  induction n as [| k IH]; simpl; [discriminate |].
  destruct (Map_Tilesets m !! k) as [ts |]; [| discriminate].
  destruct (Tileset_FirstGID ts <=? gidBare); [| exact IH].
  intros [= <-]. reflexivity.
Qed.

Lemma decodeGID_nonzero (m : Map) (gid : Z) :
  gid <> 0 ->
  decodeGID m gid =
  decodeGID_scan m gid (Z.ldiff gid gidFlip) (length (Map_Tilesets m)).
Proof.
  intros Hnz. unfold decodeGID.
  destruct (Z.eqb_spec gid 0); [contradiction | reflexivity].
Qed.

Lemma decodeGID_nonzero_not_nil (m : Map) (gid : Z) (t : DecodedTile) :
  gid <> 0 -> decodeGID m gid = Ok t -> IsNil t = false.
Proof.
  intros Hnz. rewrite decodeGID_nonzero by assumption.
  apply decodeGID_scan_not_nil.
Qed.

(** C2: for a non-zero GID the bare GID is the GID without its top three
    bits; the last tileset of the list whose FirstGID is at most the bare GID
    owns the tile, whose local ID is the bare GID minus that FirstGID; when
    every tileset starts above the bare GID (or there is none) the
    resolution fails with InvalidGIDError. *)
Theorem decodeGID_owner (m : Map) (gid : Z) :
  is_u32 gid -> gid <> 0 ->
  Forall (fun ts => is_u32 (Tileset_FirstGID ts)) (Map_Tilesets m) ->
  let gidBare := gid mod 2 ^ 29 in
  Z.ldiff gid gidFlip = gidBare /\
  (forall (i : nat) (ts : Tileset),
      Map_Tilesets m !! i = Some ts ->
      Tileset_FirstGID ts <= gidBare ->
      (forall j ts', (i < j)%nat -> Map_Tilesets m !! j = Some ts' ->
                     gidBare < Tileset_FirstGID ts') ->
      decodeGID m gid = Ok (resolved gid gidBare i ts) /\
      DecodedTile_Tileset (resolved gid gidBare i ts) = Some i /\
      DecodedTile_ID (resolved gid gidBare i ts) = gidBare - Tileset_FirstGID ts /\
      IsNil (resolved gid gidBare i ts) = false) /\
  ((forall ts, ts ∈ Map_Tilesets m -> gidBare < Tileset_FirstGID ts) ->
   decodeGID m gid = Err InvalidGIDError).
Proof.
  intros Hgid Hnz Hfirst gidBare.
  pose proof (ldiff_gidFlip gid Hgid) as Hbare. fold gidBare in Hbare.
  pose proof (gidBare_range gid) as Hrange. fold gidBare in Hrange.
  split; [exact Hbare |]. split.
  - intros i ts Hts Hle Hafter.
    split; [| split; [reflexivity | split; [| reflexivity]]].
    + rewrite decodeGID_nonzero, Hbare by assumption.
      apply decodeGID_scan_owner; try assumption.
      * apply lookup_lt_Some in Hts. exact Hts.
      * intros j ts' Hij _. apply Hafter. exact Hij.
      * lia.
    + simpl. unfold u32_sub. apply wrap_u32_small.
      rewrite Forall_lookup in Hfirst. specialize (Hfirst i ts Hts).
      unfold is_u32 in *. lia.
  - intros Hnone. rewrite decodeGID_nonzero, Hbare by assumption.
    apply decodeGID_scan_none; [| lia].
    intros j ts _ Hj. apply Hnone. eapply list_elem_of_lookup_2. exact Hj.
Qed.

(** C3: GID 0 resolves to the nil tile whatever the tilesets are, the nil
    tile is nil, and a tile resolved from a non-zero GID is not. *)
Theorem decodeGID_zero_is_NilTile (m : Map) :
  decodeGID m 0 = Ok NilTile /\
  IsNil NilTile = true /\
  (forall gid t, gid <> 0 -> decodeGID m gid = Ok t -> IsNil t = false).
Proof.
  split; [reflexivity |]. split; [reflexivity |].
  intros gid t. apply decodeGID_nonzero_not_nil.
Qed.

(** C10: a GID that is not 0 but has only flag bits set is not resolved to
    the nil tile; when every tileset starts above 0 it is an invalid GID. *)
Theorem decodeGID_flags_only (m : Map) (gid : Z) :
  is_u32 gid -> gid <> 0 -> gid mod 2 ^ 29 = 0 ->
  decodeGID m gid <> Ok NilTile /\
  ((forall ts, ts ∈ Map_Tilesets m -> 0 < Tileset_FirstGID ts) ->
   decodeGID m gid = Err InvalidGIDError).
Proof.
  intros Hgid Hnz Hbare. split.
  - intros Hnil.
    pose proof (decodeGID_nonzero_not_nil m gid NilTile Hnz Hnil). discriminate.
  - intros Hall. rewrite decodeGID_nonzero by assumption.
    rewrite (ldiff_gidFlip gid Hgid), Hbare.
    apply decodeGID_scan_none; [| lia].
    intros j ts _ Hj. apply Hall. eapply list_elem_of_lookup_2. exact Hj.
Qed.

Lemma decodeGID_owner_witness :
  decodeGID (sample_map 2 2 0 []) 0x8000000C =
    Ok (resolved 0x8000000C 12 1 (sample_tileset 11)) /\
  DecodedTile_ID (resolved 0x8000000C 12 1 (sample_tileset 11)) = 1 /\
  decodeGID (sample_map 2 2 0 []) 0x40000000 = Err InvalidGIDError.
Proof.
  assert (Hfirst : Forall (fun ts => is_u32 (Tileset_FirstGID ts))
                     (Map_Tilesets (sample_map 2 2 0 []))).
  { repeat constructor; simpl; lia. }
  split; [| split].
  - destruct (decodeGID_owner (sample_map 2 2 0 []) 0x8000000C) as (_ & Hown & _);
      [unfold is_u32; lia | lia | exact Hfirst |].
    destruct (Hown 1%nat (sample_tileset 11) eq_refl) as (H & _);
      [vm_compute; discriminate | | exact H].
    intros [| [| j]] ts' Hij Hj; [lia | lia | discriminate].
  - destruct (decodeGID_owner (sample_map 2 2 0 []) 0x8000000C) as (_ & Hown & _);
      [unfold is_u32; lia | lia | exact Hfirst |].
    destruct (Hown 1%nat (sample_tileset 11) eq_refl) as (_ & _ & H & _);
      [vm_compute; discriminate | | exact H].
    intros [| [| j]] ts' Hij Hj; [lia | lia | discriminate].
  - destruct (decodeGID_owner (sample_map 2 2 0 []) 0x40000000) as (_ & _ & Hnone);
      [unfold is_u32; lia | lia | exact Hfirst |].
    apply Hnone. intros ts Hts. simpl in Hts.
    rewrite !elem_of_cons in Hts.
    destruct Hts as [-> | [-> | Hts]]; [reflexivity | reflexivity |].
    inversion Hts.
Defined.

Lemma decodeGID_zero_is_NilTile_witness :
  decodeGID (sample_map 2 2 0 []) 0 = Ok NilTile /\
  IsNil NilTile = true /\
  IsNil (resolved 12 12 1 (sample_tileset 11)) = false.
Proof.
  destruct (decodeGID_zero_is_NilTile (sample_map 2 2 0 [])) as (H0 & Hnil & Hnz).
  split; [exact H0 |]. split; [exact Hnil |].
  apply (Hnz 12); [lia | reflexivity].
Defined.

Lemma decodeGID_flags_only_witness :
  decodeGID (sample_map 2 2 0 []) 0x80000000 <> Ok NilTile /\
  decodeGID (sample_map 2 2 0 []) 0x80000000 = Err InvalidGIDError.
Proof.
  destruct (decodeGID_flags_only (sample_map 2 2 0 []) 0x80000000) as (Hnot & Herr);
    [unfold is_u32; lia | lia | reflexivity |].
  split; [exact Hnot |].
  apply Herr. intros ts Hts. simpl in Hts.
  rewrite !elem_of_cons in Hts.
  destruct Hts as [-> | [-> | Hts]]; [reflexivity | reflexivity |].
  inversion Hts.
Defined.

(** ** Objects *)

(** The shape that the sub-elements of an object select: the first present
    of polygon, polyline, ellipse and point, a rectangle when none is. *)
Lemma GetType_hydrateType (o : Object) :
  GetType (hydrateType o) = shape_kind o.
Proof.
  unfold hydrateType, shape_kind.
  destruct (Object_Polygon o), (Object_PolyLine o), (Object_Ellipse o),
    (Object_Point o); reflexivity.
Qed.

Lemma hydrateType_fields (o : Object) :
  Object_X (hydrateType o) = Object_X o /\
  Object_Y (hydrateType o) = Object_Y o /\
  Object_Width (hydrateType o) = Object_Width o /\
  Object_Height (hydrateType o) = Object_Height o.
Proof.
  unfold hydrateType.
  destruct (Object_Polygon o), (Object_PolyLine o), (Object_Ellipse o),
    (Object_Point o); repeat split.
Qed.

(** [hydrateType] does not touch the sub-elements. *)
Lemma shape_kind_hydrateType (o : Object) :
  shape_kind (hydrateType o) = shape_kind o.
Proof.
  destruct o as [name type x y width height gid visible polygon polyLine
                 properties ellipse point objectType].
  unfold hydrateType, shape_kind. cbn.
  destruct polygon, polyLine, ellipse, point; reflexivity.
Qed.

(** C9: for an object whose stored type is the shape that its sub-elements
    select, as it is once [hydrateType] has run, each of the three queries
    returns an error and the zero geometry when the shape of the object is
    not the one it is for, and the geometry with no error when it is. *)
Theorem shape_queries (o : Object) :
  GetType o = shape_kind o ->
  (snd (GetEllipse o) = None <-> shape_kind o = EllipseObj) /\
  (snd (GetPoint o) = None <-> shape_kind o = PointObj) /\
  (snd (GetRect o) = None <-> shape_kind o = RectangleObj) /\
  (shape_kind o <> EllipseObj ->
   GetEllipse o = (pixel_C pixel_ZV 0, Some ErrInvalidObjectType)) /\
  (shape_kind o <> PointObj ->
   GetPoint o = (pixel_ZV, Some ErrInvalidObjectType)) /\
  (shape_kind o <> RectangleObj ->
   GetRect o = (pixel_R 0 0 0 0, Some ErrInvalidObjectType)) /\
  (shape_kind o = EllipseObj ->
   GetEllipse o =
     (pixel_C (pixel_V (Object_X o + Object_Width o / 2)
                       (Object_Y o + Object_Height o / 2))
              ((Object_Width o + Object_Height o) / 4), None)%float) /\
  (shape_kind o = PointObj ->
   GetPoint o = (pixel_V (Object_X o) (Object_Y o), None)) /\
  (shape_kind o = RectangleObj ->
   GetRect o =
     (pixel_R (Object_X o) (Object_Y o)
              (Object_X o + Object_Width o) (Object_Y o + Object_Height o), None)%float).
Proof.
  intros Htype. unfold GetEllipse, GetPoint, GetRect. rewrite Htype.
  destruct (shape_kind o); simpl;
    repeat split; intros; try reflexivity; try discriminate; try contradiction.
Qed.

Lemma shape_queries_witness :
  GetType (hydrateType sample_rectangle) = shape_kind (hydrateType sample_rectangle) /\
  GetRect (hydrateType sample_rectangle) = (pixel_R 8 16 40 40, None) /\
  GetEllipse (hydrateType sample_rectangle) =
    (pixel_C pixel_ZV 0, Some ErrInvalidObjectType) /\
  GetPoint (hydrateType sample_rectangle) = (pixel_ZV, Some ErrInvalidObjectType).
Proof.
  assert (Htype : GetType (hydrateType sample_rectangle)
                  = shape_kind (hydrateType sample_rectangle)) by reflexivity.
  split; [exact Htype |].
  destruct (shape_queries (hydrateType sample_rectangle) Htype)
    as (_ & _ & _ & HnotE & HnotP & _ & _ & _ & HR).
  split; [apply HR; reflexivity |].
  split; [apply HnotE; discriminate | apply HnotP; discriminate].
Defined.

(** The sentence of C9 on objects whose stored type is not the shape of
    their sub-elements: the queries go by the stored type.  The object
    without sub-elements, a rectangle, with the type of an ellipse stored,
    returns a circle with no error and fails as a rectangle; the object with
    an ellipse element and the type of a rectangle stored returns a
    rectangle with no error and fails as an ellipse.  Whatever type an
    object has before [hydrateType] runs, one of the two differs from its
    shape. *)
Lemma shape_queries_stored_type_counterexample :
  (shape_kind sample_rectangle = RectangleObj /\
   GetType sample_rectangle = EllipseObj /\
   GetEllipse sample_rectangle = (pixel_C (pixel_V 24 28) 14, None) /\
   GetRect sample_rectangle = (pixel_R 0 0 0 0, Some ErrInvalidObjectType)) /\
  (shape_kind sample_ellipse = EllipseObj /\
   GetType sample_ellipse = RectangleObj /\
   GetRect sample_ellipse = (pixel_R 8 16 40 40, None) /\
   GetEllipse sample_ellipse = (pixel_C pixel_ZV 0, Some ErrInvalidObjectType)) /\
  Forall (fun t =>
            shape_kind (Object_with_objectType sample_rectangle t) <> t \/
            shape_kind (Object_with_objectType sample_ellipse t) <> t)
    [EllipseObj; PolygonObj; PolylineObj; RectangleObj; PointObj].
Proof.
  split; [repeat split | split; [repeat split |]].
  repeat (apply Forall_cons_2;
          [first [left; vm_compute; discriminate | right; vm_compute; discriminate] |]).
  apply Forall_nil_2.
Qed.

(** ** [getTileset] *)

(** Every tile that is not nil belongs to tileset [A], and one has been
    seen or is still to come: the scan ends with [A]. *)
Lemma getTileset_scan_single (tiles : list DecodedTile) (A : nat) (acc : option nat) :
  (forall t, t ∈ tiles -> DecodedTile_Nil t = false -> DecodedTile_Tileset t = Some A) ->
  acc = Some A \/ (acc = None /\ exists t, t ∈ tiles /\ DecodedTile_Nil t = false) ->
  getTileset_scan tiles acc = (Some A, false, false).
Proof.
  revert acc. induction tiles as [| t rest IH]; intros acc Hall Hacc.
  - destruct Hacc as [-> | (_ & t & Ht & _)]; [reflexivity | inversion Ht].
  - simpl. destruct (DecodedTile_Nil t) eqn:Hnil; simpl.
    + apply IH.
      * intros t' Ht'. apply Hall. by apply list_elem_of_further.
      * destruct Hacc as [-> | (-> & t' & Ht' & Hn)]; [by left | right].
        split; [reflexivity |]. exists t'. split; [| exact Hn].
        apply elem_of_cons in Ht'. destruct Ht' as [-> | Ht']; [congruence | exact Ht'].
    + pose proof (Hall t (list_elem_of_here t rest) Hnil) as Hts.
      assert (Hrest : forall t', t' ∈ rest -> DecodedTile_Nil t' = false ->
                                 DecodedTile_Tileset t' = Some A).
      { intros t' Ht'. apply Hall. by apply list_elem_of_further. }
      destruct Hacc as [-> | (-> & _)].
      * rewrite Hts, bool_decide_eq_true_2 by reflexivity. simpl.
        apply IH; [exact Hrest | by left].
      * rewrite Hts. apply IH; [exact Hrest | by left].
Qed.

(** A tileset has been found and a later tile belongs elsewhere. *)
Lemma getTileset_scan_other (tiles : list DecodedTile) (a : nat) :
  (exists t, t ∈ tiles /\ DecodedTile_Nil t = false /\ DecodedTile_Tileset t <> Some a) ->
  getTileset_scan tiles (Some a) = (Some a, false, true).
Proof.
  induction tiles as [| t rest IH]; intros (t' & Ht' & Hnil' & Hne).
  - inversion Ht'.
  - simpl. apply elem_of_cons in Ht'.
    destruct (DecodedTile_Nil t) eqn:Hnil; simpl.
    + apply IH. exists t'. destruct Ht' as [-> | Ht']; [congruence | done].
    + destruct (decide (Some a = DecodedTile_Tileset t)) as [Heq | Hneq].
      * rewrite bool_decide_eq_true_2 by exact Heq. simpl.
        apply IH. exists t'. destruct Ht' as [-> | Ht']; [congruence | done].
      * rewrite bool_decide_eq_false_2 by exact Hneq. reflexivity.
Qed.

(** Two tiles that are not nil belong to two tilesets: the scan reports
    several tilesets. *)
Lemma getTileset_scan_multiple (tiles : list DecodedTile) (t1 t2 : DecodedTile)
  (A B : nat) :
  t1 ∈ tiles -> t2 ∈ tiles ->
  DecodedTile_Nil t1 = false -> DecodedTile_Nil t2 = false ->
  DecodedTile_Tileset t1 = Some A -> DecodedTile_Tileset t2 = Some B -> A <> B ->
  exists ts, getTileset_scan tiles None = (ts, false, true).
Proof.
  intros H1 H2 Hn1 Hn2 HA HB Hne.
  induction tiles as [| t rest IH]; [inversion H1 |].
  simpl. apply elem_of_cons in H1. apply elem_of_cons in H2.
  destruct (DecodedTile_Nil t) eqn:Hnil; simpl.
  - destruct H1 as [-> | H1]; [congruence |].
    destruct H2 as [-> | H2]; [congruence |]. by apply IH.
  - destruct (DecodedTile_Tileset t) as [c |] eqn:Hc.
    + exists (Some c). apply getTileset_scan_other.
      destruct (decide (c = A)) as [-> | HcA].
      * exists t2. destruct H2 as [-> | H2]; [congruence |].
        split; [exact H2 |]. split; [exact Hn2 | congruence].
      * exists t1. destruct H1 as [-> | H1]; [congruence |].
        split; [exact H1 |]. split; [exact Hn1 | congruence].
    + destruct H1 as [-> | H1]; [congruence |].
      destruct H2 as [-> | H2]; [congruence |]. by apply IH.
Qed.

Lemma getTileset_scan_all_nil (tiles : list DecodedTile) :
  (forall t, t ∈ tiles -> DecodedTile_Nil t = true) ->
  getTileset_scan tiles None = (None, true, false).
Proof.
  induction tiles as [| t rest IH]; intros Hall; [reflexivity |].
  simpl. rewrite (Hall t (list_elem_of_here t rest)). simpl.
  apply IH. intros t' Ht'. apply Hall. by apply list_elem_of_further.
Qed.

Lemma Read_layer_DecodedTiles (l : Layer) :
  Layer_DecodedTiles (Read_layer l) = Layer_DecodedTiles l.
Proof.
  unfold Read_layer. destruct (getTileset l) as [[ts e] multi].
  destruct multi; reflexivity.
Qed.

(** ** [decodeLayers] and [Read] *)

Section PipelineProperties.

Variable bytes_TrimSpace : string -> string.
Variable base64_decode : string -> result (list byte).
Variable gzip_inflate : string -> result (list byte).
Variable zlib_inflate : string -> result (list byte).
Variable xml_Decode : string -> result Map.

Local Abbreviation decodeLayers_loop' :=
  (decodeLayers_loop bytes_TrimSpace base64_decode gzip_inflate zlib_inflate).
Local Abbreviation decodeLayers' :=
  (decodeLayers bytes_TrimSpace base64_decode gzip_inflate zlib_inflate).
Local Abbreviation Read' :=
  (Read bytes_TrimSpace base64_decode gzip_inflate zlib_inflate xml_Decode).



(** What a successful [Read] has gone through. *)
Lemma Read_Ok_inv (r : string) (m : Map) :
  Read' r = Ok m ->
  exists m0 layers,
    xml_Decode r = Ok m0 /\
    Map_Infinite m0 <> 1 /\
    decodeLayers_loop' m0 (Map_Layers m0) = Ok layers /\
    m = Map_with_Layers m0 (map Read_layer layers).
Proof.
  unfold Read, decodeLayers. intros H.
  destruct (xml_Decode r) as [m0 | |]; simpl in H; try discriminate.
  destruct (Z.eqb_spec (Map_Infinite m0) 1) as [| Hinf]; [discriminate |].
  destruct (decodeLayers_loop' m0 (Map_Layers m0)) as [layers | |] eqn:Hloop;
    simpl in H; try discriminate.
  injection H as <-. exists m0, layers.
  split; [reflexivity |]. split; [exact Hinf |]. split; [exact Hloop | reflexivity].
Qed.

(** C5: when the decoded map has [infinite] set, [Read] returns
    [InfiniteMapError] and no map, whatever the layers hold: they are not
    decoded. *)
Theorem Read_infinite (r : string) (m : Map) :
  xml_Decode r = Ok m -> Map_Infinite m = 1 ->
  Read' r = Err InfiniteMapError.
Proof.
  intros Hdec Hinf. unfold Read. rewrite Hdec. simpl.
  rewrite Hinf. reflexivity.
Qed.


End PipelineProperties.

Ltac elem_cases H :=
  repeat (apply elem_of_cons in H; destruct H as [-> | H]);
  try (apply elem_of_nil in H; contradiction).

Lemma Read_infinite_witness :
  Read plain_TrimSpace base64_std no_inflate no_inflate (parses_to sample_infinite) ""
  = Err InfiniteMapError.
Proof.
  apply (Read_infinite plain_TrimSpace base64_std no_inflate no_inflate
           (parses_to sample_infinite) "" sample_infinite); reflexivity.
Defined.



(** ** The base64 payload: [decodeLayerBase64] *)

Lemma byte_num_range (b : byte) : 0 <= byte_num b < 2 ^ 8.
Proof. unfold byte_num. pose proof (Byte.to_N_bounded b). lia. Qed.

Ltac mod_small :=
  repeat match goal with
         | |- context [?a mod ?m] => rewrite (Z.mod_small a m) by lia
         end.

(** The sum of shifted bytes of the source is the little-endian integer:
    nothing wraps. *)
Lemma u32_le32 (b0 b1 b2 b3 : Z) :
  0 <= b0 < 2 ^ 8 -> 0 <= b1 < 2 ^ 8 -> 0 <= b2 < 2 ^ 8 -> 0 <= b3 < 2 ^ 8 ->
  u32_add (u32_add (u32_add b0 (u32_shl b1 8)) (u32_shl b2 16)) (u32_shl b3 24)
  = le32 b0 b1 b2 b3.
Proof.
  intros H0 H1 H2 H3. unfold u32_add, u32_shl, wrap_u32, le32.
  rewrite !Z.shiftl_mul_pow2 by lia.
  change (2 ^ 8) with 256 in *. change (2 ^ 16) with 65536.
  change (2 ^ 24) with 16777216. change (2 ^ 32) with 4294967296.
  mod_small. lia.
Qed.

Lemma le32_range (b0 b1 b2 b3 : Z) :
  0 <= b0 < 2 ^ 8 -> 0 <= b1 < 2 ^ 8 -> 0 <= b2 < 2 ^ 8 -> 0 <= b3 < 2 ^ 8 ->
  is_u32 (le32 b0 b1 b2 b3).
Proof. unfold is_u32, le32. lia. Qed.

Lemma byte_at_Ok (dataBytes : list byte) (j : Z) (b : byte) :
  0 <= j -> dataBytes !! Z.to_nat j = Some b ->
  byte_at dataBytes j = Ok (byte_num b).
Proof.
  intros Hj Hb. unfold byte_at.
  destruct (Z.ltb_spec j 0); [lia |]. rewrite Hb. reflexivity.
Qed.

Lemma byte_at_Ok_inv (dataBytes : list byte) (j v : Z) :
  byte_at dataBytes j = Ok v ->
  0 <= j < Z.of_nat (length dataBytes).
Proof.
  unfold byte_at. destruct (Z.ltb_spec j 0); [discriminate |].
  destruct (dataBytes !! Z.to_nat j) as [b |] eqn:Hb; [| discriminate].
  intros _. apply lookup_lt_Some in Hb. lia.
Qed.

Lemma store_GID_Ok (gids : list Z) (idx gid : Z) :
  0 <= idx < Z.of_nat (length gids) ->
  store_GID gids idx gid = Ok (<[Z.to_nat idx := gid]> gids).
Proof.
  intros H. unfold store_GID.
  destruct (Z.ltb_spec idx 0); [lia |].
  destruct (Z.leb_spec (Z.of_nat (length gids)) idx); [lia | reflexivity].
Qed.

Lemma store_GID_length (gids gids' : list Z) (idx gid : Z) :
  store_GID gids idx gid = Ok gids' -> length gids' = length gids.
Proof.
  unfold store_GID. destruct ((idx <? 0) || _); [discriminate |].
  intros [= <-]. apply length_insert.
Qed.

Lemma maxAlloc_is_int (z : Z) : 0 <= z <= maxAlloc + 4 -> is_int z.
Proof. unfold is_int, maxAlloc. lia. Qed.

(** A cell of the grid has its index in the row-major sequence. *)
Lemma cell_index (width height y x : Z) :
  0 <= y < height -> 0 <= x < width -> 0 <= y * width + x < width * height.
Proof. intros Hy Hx. nia. Qed.

Section Base64Grid.

Variable dataBytes : list byte.
Variables width height : Z.
Hypothesis width_pos : 0 < width.
Hypothesis height_pos : 0 < height.
Hypothesis length_dataBytes : Z.of_nat (length dataBytes) = 4 * (width * height).
Hypothesis allocated : Z.of_nat (length dataBytes) <= maxAlloc.

Local Abbreviation done_to := (cells_done dataBytes (width * height)).

(** One more cell. *)
Lemma decodeLayerBase64_cell_done (y x : Z) (st : Z * list Z) :
  0 <= y < height -> 0 <= x < width ->
  done_to (y * width + x) st ->
  exists st', decodeLayerBase64_cell dataBytes width y x st = Ok st' /\
              done_to (y * width + x + 1) st'.
Proof.
  intros Hy Hx. pose proof (cell_index width height y x Hy Hx) as Hc.
  set (c := y * width + x) in *.
  destruct st as [j gids]. intros (Hj & Hlen & Hdone). simpl in Hj, Hlen, Hdone.
  subst j.
  assert (Hb : forall i, 0 <= i < 4 ->
                 exists b, dataBytes !! (4 * Z.to_nat c + Z.to_nat i)%nat = Some b).
  { intros i Hi. apply lookup_lt_is_Some_2. lia. }
  destruct (Hb 0 ltac:(lia)) as [b0 H0]. destruct (Hb 1 ltac:(lia)) as [b1 H1].
  destruct (Hb 2 ltac:(lia)) as [b2 H2]. destruct (Hb 3 ltac:(lia)) as [b3 H3].
  change (Z.to_nat 0) with 0%nat in H0. change (Z.to_nat 1) with 1%nat in H1.
  change (Z.to_nat 2) with 2%nat in H2. change (Z.to_nat 3) with 3%nat in H3.
  rewrite Nat.add_0_r in H0.
  unfold decodeLayerBase64_cell, int_add, int_mul.
  rewrite (wrap_int_small (4 * c + 1)), (wrap_int_small (4 * c + 2)),
    (wrap_int_small (4 * c + 3)), (wrap_int_small (4 * c + 4)),
    (wrap_int_small (y * width)), (wrap_int_small (y * width + x))
    by (apply maxAlloc_is_int; nia).
  rewrite (byte_at_Ok dataBytes (4 * c) b0), (byte_at_Ok dataBytes (4 * c + 1) b1),
    (byte_at_Ok dataBytes (4 * c + 2) b2), (byte_at_Ok dataBytes (4 * c + 3) b3);
    try lia;
    try (match goal with |- _ !! ?n = _ =>
           match goal with H : _ !! ?n' = _ |- _ =>
             replace n with n' by lia; exact H end end).
  cbn [bind].
  rewrite u32_le32 by apply byte_num_range.
  fold c. rewrite store_GID_Ok by lia. cbn [bind].
  eexists. split; [reflexivity |].
  split; [simpl; lia |]. split; [simpl; rewrite length_insert; exact Hlen |].
  intros k Hk. simpl.
  destruct (decide (k = Z.to_nat c)) as [-> | Hne].
  - eexists. split.
    + unfold le32_at. rewrite H0, H1, H2, H3. reflexivity.
    + apply list_lookup_insert_eq. lia.
  - destruct (Hdone k ltac:(lia)) as (v & Hv & Hg).
    exists v. split; [exact Hv |].
    rewrite list_lookup_insert_ne by lia. exact Hg.
Qed.

(** The inner loop, from column [x0]. *)
Lemma decodeLayerBase64_row_done (y : Z) (n : nat) (x0 : Z) (st : Z * list Z) :
  0 <= y < height -> 0 <= x0 -> x0 + Z.of_nat n <= width ->
  done_to (y * width + x0) st ->
  exists st', for_range x0 n (decodeLayerBase64_cell dataBytes width y) st = Ok st' /\
              done_to (y * width + x0 + Z.of_nat n) st'.
Proof.
  intros Hy. revert x0 st. induction n as [| n IH]; intros x0 st Hx0 Hn Hst.
  - exists st. split; [reflexivity |]. by rewrite Z.add_0_r.
  - simpl for_range.
    destruct (decodeLayerBase64_cell_done y x0 st Hy ltac:(lia) Hst) as (st1 & -> & Hst1).
    cbn [bind].
    destruct (IH (x0 + 1) st1 ltac:(lia) ltac:(lia)) as (st' & Hrun & Hst').
    { by rewrite Z.add_assoc. }
    exists st'. split; [exact Hrun |].
    replace (y * width + x0 + Z.of_nat (S n))
      with (y * width + (x0 + 1) + Z.of_nat n) by lia.
    exact Hst'.
Qed.

(** The outer loop, from row [y0]. *)
Lemma decodeLayerBase64_rows_done (n : nat) (y0 : Z) (st : Z * list Z) :
  0 <= y0 -> y0 + Z.of_nat n <= height ->
  done_to (y0 * width) st ->
  exists st',
    for_range y0 n
      (fun y => for_range 0 (Z.to_nat width) (decodeLayerBase64_cell dataBytes width y))
      st = Ok st' /\
    done_to ((y0 + Z.of_nat n) * width) st'.
Proof.
  revert y0 st. induction n as [| n IH]; intros y0 st Hy0 Hn Hst.
  - exists st. split; [reflexivity |]. by rewrite Z.add_0_r.
  - simpl for_range.
    destruct (decodeLayerBase64_row_done y0 (Z.to_nat width) 0 st) as (st1 & -> & Hst1);
      [lia | lia | lia | by rewrite Z.add_0_r |].
    cbn [bind].
    destruct (IH (y0 + 1) st1 ltac:(lia) ltac:(lia)) as (st' & Hrun & Hst').
    { replace ((y0 + 1) * width) with (y0 * width + 0 + Z.of_nat (Z.to_nat width)) by lia.
      exact Hst1. }
    exists st'. split; [exact Hrun |].
    replace (y0 + Z.of_nat (S n)) with (y0 + 1 + Z.of_nat n) by lia.
    exact Hst'.
Qed.

(** On a payload of exactly four bytes a cell the decoder returns the
    little-endian integers of the groups of four bytes. *)
Lemma decodeLayerBase64_bytes_exact :
  exists gids,
    decodeLayerBase64_bytes dataBytes width height = Ok gids /\
    Z.of_nat (length gids) = width * height /\
    forall k : nat, Z.of_nat k < width * height ->
      exists v, le32_at dataBytes k = Some v /\ gids !! k = Some v.
Proof.
  unfold decodeLayerBase64_bytes, int_mul.
  assert (Hn : 0 < width * height) by nia.
  rewrite (wrap_int_small (width * height)) by (apply maxAlloc_is_int; lia).
  rewrite (wrap_int_small (width * height * 4)) by (apply maxAlloc_is_int; lia).
  destruct (Z.eqb_spec (Z.of_nat (length dataBytes)) (width * height * 4)); [| lia].
  cbn [negb]. unfold make_GIDs.
  destruct (Z.ltb_spec (width * height) 0); [lia |].
  destruct (Z.ltb_spec maxAlloc (4 * (width * height))); [lia |].
  cbn [orb bind].
  destruct (decodeLayerBase64_rows_done (Z.to_nat height) 0
              (0, replicate (Z.to_nat (width * height)) 0))
    as ([j gids] & -> & Hj & Hlen & Hdone).
  - lia.
  - lia.
  - split; [simpl; lia |]. split; [simpl; rewrite length_replicate; lia |].
    intros k Hk. lia.
  - cbn [bind snd]. exists gids. split; [reflexivity |].
    split; [exact Hlen |]. intros k Hk. apply Hdone. lia.
Qed.

End Base64Grid.

(** A cell that returns has read four bytes inside the payload. *)
Lemma decodeLayerBase64_cell_Ok (dataBytes : list byte) (width y x j j' : Z)
  (gids gids' : list Z) :
  Z.of_nat (length dataBytes) <= maxAlloc ->
  decodeLayerBase64_cell dataBytes width y x (j, gids) = Ok (j', gids') ->
  0 <= j /\ j' = j + 4 /\ j' <= Z.of_nat (length dataBytes) /\
  length gids' = length gids.
Proof.
  intros Halloc. unfold decodeLayerBase64_cell.
  destruct (byte_at dataBytes j) as [b0 | |] eqn:H0; try discriminate.
  destruct (byte_at dataBytes (int_add j 1)) as [b1 | |]; try discriminate.
  destruct (byte_at dataBytes (int_add j 2)) as [b2 | |]; try discriminate.
  destruct (byte_at dataBytes (int_add j 3)) as [b3 | |] eqn:H3; try discriminate.
  cbn [bind].
  destruct (store_GID gids _ _) as [g | |] eqn:Hstore; try discriminate.
  cbn [bind]. intros [= <- <-].
  apply byte_at_Ok_inv in H0. apply byte_at_Ok_inv in H3.
  unfold int_add in *.
  rewrite (wrap_int_small (j + 3)) in H3 by (apply maxAlloc_is_int; lia).
  rewrite (wrap_int_small (j + 4)) by (apply maxAlloc_is_int; lia).
  apply store_GID_length in Hstore. repeat split; [lia | lia | exact Hstore].
Qed.

Lemma decodeLayerBase64_row_Ok (dataBytes : list byte) (width y : Z) (n : nat)
  (x0 j j' : Z) (gids gids' : list Z) :
  Z.of_nat (length dataBytes) <= maxAlloc ->
  0 <= j <= Z.of_nat (length dataBytes) ->
  for_range x0 n (decodeLayerBase64_cell dataBytes width y) (j, gids) = Ok (j', gids') ->
  j' = j + 4 * Z.of_nat n /\ j' <= Z.of_nat (length dataBytes) /\
  length gids' = length gids.
Proof.
  intros Halloc. revert x0 j gids.
  induction n as [| n IH]; intros x0 j gids Hj; cbn [for_range].
  - intros [= <- <-]. lia.
  - destruct (decodeLayerBase64_cell dataBytes width y x0 (j, gids))
      as [[j1 gids1] | |] eqn:Hcell; try discriminate.
    cbn [bind]. intros Hrest.
    apply decodeLayerBase64_cell_Ok in Hcell; [| exact Halloc].
    apply IH in Hrest; [| lia]. lia.
Qed.

Lemma decodeLayerBase64_rows_Ok (dataBytes : list byte) (width : Z) (n : nat)
  (y0 j j' : Z) (gids gids' : list Z) :
  Z.of_nat (length dataBytes) <= maxAlloc ->
  0 <= j <= Z.of_nat (length dataBytes) ->
  for_range y0 n
    (fun y => for_range 0 (Z.to_nat width) (decodeLayerBase64_cell dataBytes width y))
    (j, gids) = Ok (j', gids') ->
  j' = j + 4 * (Z.of_nat (Z.to_nat width) * Z.of_nat n) /\
  j' <= Z.of_nat (length dataBytes) /\
  length gids' = length gids.
Proof.
  intros Halloc. revert y0 j gids.
  induction n as [| n IH]; intros y0 j gids Hj; cbn [for_range].
  - intros [= <- <-]. lia.
  - destruct (for_range 0 (Z.to_nat width) _ (j, gids)) as [[j1 gids1] | |] eqn:Hrow;
      try discriminate.
    cbn [bind]. intros Hrest.
    apply decodeLayerBase64_row_Ok in Hrow; [| exact Halloc | lia].
    apply IH in Hrest; [| lia]. lia.
Qed.

(** What a return of the decoder tells about the payload and the
    dimensions. *)
Lemma decodeLayerBase64_bytes_Ok (dataBytes : list byte) (width height : Z)
  (gids : list Z) :
  decodeLayerBase64_bytes dataBytes width height = Ok gids ->
  Z.of_nat (length dataBytes) = int_mul (int_mul width height) 4 /\
  Z.of_nat (length gids) = int_mul width height /\
  Z.of_nat (length dataBytes) <= maxAlloc /\
  (0 < width -> 0 < height ->
   Z.of_nat (length dataBytes) = 4 * (width * height)).
Proof.
  unfold decodeLayerBase64_bytes.
  destruct (Z.eqb_spec (Z.of_nat (length dataBytes)) (int_mul (int_mul width height) 4))
    as [Hlen |]; [| discriminate].
  cbn [negb]. unfold make_GIDs.
  set (n := int_mul width height) in *.
  destruct (Z.ltb_spec n 0) as [| Hn0]; [discriminate |].
  destruct (Z.ltb_spec maxAlloc (4 * n)) as [| Hn1]; [discriminate |].
  cbn [orb bind].
  assert (Hlen4 : Z.of_nat (length dataBytes) = 4 * n).
  { rewrite Hlen. unfold int_mul. rewrite wrap_int_small; [lia |].
    apply maxAlloc_is_int. lia. }
  destruct (for_range 0 (Z.to_nat height) _ _) as [[j gids'] | |] eqn:Hrun;
    try discriminate.
  cbn [bind snd]. intros [= <-].
  apply decodeLayerBase64_rows_Ok in Hrun; [| lia | lia].
  destruct Hrun as (Hj & Hjle & Hgl). rewrite length_replicate in Hgl.
  repeat split; [exact Hlen | lia | lia |].
  intros Hw Hh.
  assert (Hle : width * height <= n) by nia.
  assert (Hwh : int_mul width height = width * height).
  { unfold int_mul. apply wrap_int_small. unfold is_int. unfold maxAlloc in *. nia. }
  fold n in Hwh. lia.
Qed.

Lemma for_range_idle {S : Type} (body : Z -> S -> result S) (n : nat) (start : Z)
  (s : S) :
  (forall i, body i s = Ok s) -> for_range start n body s = Ok s.
Proof.
  intros Hidle. revert start. induction n as [| n IH]; intros start; [reflexivity |].
  cbn [for_range]. rewrite Hidle. cbn [bind]. apply IH.
Qed.

(** Without a column or without a row no cell is decoded. *)
Lemma decodeLayerBase64_bytes_degenerate (dataBytes : list byte) (width height : Z) :
  width <= 0 \/ height <= 0 ->
  Z.of_nat (length dataBytes) = 4 * (width * height) ->
  Z.of_nat (length dataBytes) <= maxAlloc ->
  decodeLayerBase64_bytes dataBytes width height
  = Ok (replicate (Z.to_nat (width * height)) 0).
Proof.
  intros Hdeg Hlen Halloc. unfold decodeLayerBase64_bytes, int_mul.
  rewrite (wrap_int_small (width * height)) by (apply maxAlloc_is_int; lia).
  rewrite (wrap_int_small (width * height * 4)) by (apply maxAlloc_is_int; lia).
  destruct (Z.eqb_spec (Z.of_nat (length dataBytes)) (width * height * 4)); [| lia].
  cbn [negb]. unfold make_GIDs.
  destruct (Z.ltb_spec (width * height) 0); [lia |].
  destruct (Z.ltb_spec maxAlloc (4 * (width * height))); [lia |].
  cbn [orb bind].
  destruct (Z.le_gt_cases height 0) as [Hh | Hh].
  - replace (Z.to_nat height) with 0%nat by lia. reflexivity.
  - rewrite for_range_idle; [reflexivity |].
    intros y. replace (Z.to_nat width) with 0%nat by lia. reflexivity.
Qed.

(** ** The CSV payload: [decodeCSV] *)

Lemma ParseUint_loop_range (s0 cs : string) (maxVal n v : Z) :
  0 <= n <= maxVal ->
  ParseUint_loop s0 cs maxVal n = Ok v -> 0 <= v <= maxVal.
Proof.
  revert n. induction cs as [| c rest IH]; intros n Hn; simpl.
  - intros [= <-]. exact Hn.
  - destruct (is_digit c); [| discriminate].
    destruct (n >=? maxUint64 / 10 + 1); [discriminate |].
    destruct (Z.ltb_spec ((n * 10 mod 2 ^ 64 + (byte_val c - byte_val "0")) mod 2 ^ 64)
                (n * 10 mod 2 ^ 64)); [discriminate |].
    destruct (Z.gtb_spec ((n * 10 mod 2 ^ 64 + (byte_val c - byte_val "0")) mod 2 ^ 64)
                maxVal); [discriminate |].
    cbn [orb]. apply IH.
    pose proof (Z.mod_pos_bound (n * 10 mod 2 ^ 64 + (byte_val c - byte_val "0"))
                  (2 ^ 64) ltac:(lia)).
    lia.
Qed.

Lemma ParseUint_32_range (s : string) (v : Z) :
  ParseUint s 32 = Ok v -> is_u32 v.
Proof.
  unfold ParseUint. destruct s as [| c rest]; [discriminate |].
  change (if 32 =? 0 then 64 else 32) with 32.
  intros H. apply ParseUint_loop_range in H; unfold is_u32; lia.
Qed.

(** The GIDs are the values of the tokens, in the order of the tokens. *)
Lemma decodeCSV_loop_tokens (str : list string) (gids : list Z) :
  decodeCSV_loop str = Ok gids ->
  Forall2 (fun s gid => ParseUint s 32 = Ok gid) str gids.
Proof.
  revert gids. induction str as [| s rest IH]; intros gids; simpl.
  - intros [= <-]. constructor.
  - destruct (ParseUint s 32) as [d | |] eqn:Hd; try discriminate. cbn [bind].
    destruct (decodeCSV_loop rest) as [gids' | |]; try discriminate. cbn [bind].
    intros [= <-]. constructor; [| by apply IH].
    rewrite wrap_u32_small by (by apply ParseUint_32_range in Hd). exact Hd.
Qed.

(** ** The three payload decoders *)

Lemma int_mul_exact (a b : Z) : is_int (a * b) -> int_mul a b = a * b.
Proof. apply wrap_int_small. Qed.

Section PayloadProperties.

Variable bytes_TrimSpace : string -> string.
Variable base64_decode : string -> result (list byte).
Variable gzip_inflate : string -> result (list byte).
Variable zlib_inflate : string -> result (list byte).

Local Abbreviation decodeBase64' :=
  (decodeBase64 bytes_TrimSpace base64_decode gzip_inflate zlib_inflate).
Local Abbreviation decodeLayerBase64' :=
  (decodeLayerBase64 bytes_TrimSpace base64_decode gzip_inflate zlib_inflate).
Local Abbreviation Layer_decode' :=
  (Layer_decode bytes_TrimSpace base64_decode gzip_inflate zlib_inflate).

Lemma decodeLayerXML_Ok (l : Layer) (width height : Z) (gids : list Z) :
  decodeLayerXML l width height = Ok gids ->
  Z.of_nat (length gids) = int_mul width height /\
  gids = map DataTile_GID (Data_DataTiles (Layer_Data l)).
Proof.
  unfold decodeLayerXML.
  destruct (Z.eqb_spec (Z.of_nat (length (Data_DataTiles (Layer_Data l))))
              (int_mul width height)) as [Hlen |]; [| discriminate].
  intros [= <-]. rewrite length_map. done.
Qed.

Lemma decodeLayerCSV_Ok (l : Layer) (width height : Z) (gids : list Z) :
  decodeLayerCSV l width height = Ok gids ->
  Z.of_nat (length gids) = int_mul width height /\
  decodeCSV (Layer_Data l) = Ok gids.
Proof.
  unfold decodeLayerCSV.
  destruct (decodeCSV (Layer_Data l)) as [parsed | |]; try discriminate. cbn [bind].
  destruct (Z.eqb_spec (Z.of_nat (length parsed)) (int_mul width height));
    [| discriminate].
  intros [= <-]. done.
Qed.

Lemma decodeLayerBase64_Ok (l : Layer) (width height : Z) (gids : list Z) :
  decodeLayerBase64' l width height = Ok gids ->
  exists dataBytes,
    decodeBase64' (Layer_Data l) = Ok dataBytes /\
    Z.of_nat (length dataBytes) = int_mul (int_mul width height) 4 /\
    Z.of_nat (length gids) = int_mul width height /\
    forall x y, 0 <= x < width -> 0 <= y < height ->
      exists v, le32_at dataBytes (Z.to_nat (y * width + x)) = Some v /\
                gids !! Z.to_nat (y * width + x) = Some v.
Proof.
  unfold decodeLayerBase64.
  destruct (decodeBase64' (Layer_Data l)) as [dataBytes | |]; try discriminate.
  cbn [bind]. intros Hrun. exists dataBytes. split; [reflexivity |].
  destruct (decodeLayerBase64_bytes_Ok _ _ _ _ Hrun) as (Hlen & Hn & Halloc & Hexact).
  split; [exact Hlen |]. split; [exact Hn |].
  intros x y Hx Hy.
  destruct (decodeLayerBase64_bytes_exact dataBytes width height)
    as (gids' & Hrun' & _ & Hcells); [lia | lia | apply Hexact; lia | exact Halloc |].
  rewrite Hrun in Hrun'. injection Hrun' as <-.
  apply Hcells. pose proof (cell_index width height y x Hy Hx). lia.
Qed.

(** The allocation of [decodeLayerBase64] has succeeded when GIDs are
    returned. *)
Lemma decodeLayerBase64_bytes_Ok_alloc (dataBytes : list byte) (width height : Z)
  (gids : list Z) :
  decodeLayerBase64_bytes dataBytes width height = Ok gids ->
  0 <= int_mul width height /\ 4 * int_mul width height <= maxAlloc.
Proof.
  unfold decodeLayerBase64_bytes, make_GIDs.
  destruct (negb _); [discriminate |].
  destruct (Z.ltb_spec (int_mul width height) 0); [discriminate |].
  destruct (Z.ltb_spec maxAlloc (4 * int_mul width height)); [discriminate |].
  intros _. lia.
Qed.

(** C1: when the product [width * height] is in the range of Go's [int], a
    payload decode that succeeds returns [width * height] GIDs, for each of
    the three encodings: the GIDs of the tile records in their order, the
    values of the CSV tokens in their order, the little-endian integer of
    the four bytes from [4 * (y * width + x)] at [y * width + x]; a count of
    records or of tokens other than the product gives
    InvalidDecodedDataLenError, and so does a count of bytes other than
    [width * height * 4] when that is in the range of [int] too. *)
Theorem payload_decoders (l : Layer) (width height : Z) :
  is_int (width * height) ->
  (forall gids, Layer_decode' l width height = Ok gids ->
                Z.of_nat (length gids) = width * height) /\
  (forall gids, decodeLayerXML l width height = Ok gids ->
     Z.of_nat (length gids) = width * height /\
     gids = map DataTile_GID (Data_DataTiles (Layer_Data l))) /\
  (Z.of_nat (length (Data_DataTiles (Layer_Data l))) <> width * height ->
   decodeLayerXML l width height = Err InvalidDecodedDataLenError) /\
  (forall gids, decodeLayerCSV l width height = Ok gids ->
     Z.of_nat (length gids) = width * height /\
     Forall2 (fun s gid => ParseUint s 32 = Ok gid)
       (strings_Split (strings_Map cleaner (Data_RawData (Layer_Data l))) ",") gids) /\
  (forall parsed, decodeCSV (Layer_Data l) = Ok parsed ->
     Z.of_nat (length parsed) <> width * height ->
     decodeLayerCSV l width height = Err InvalidDecodedDataLenError) /\
  (forall gids, decodeLayerBase64' l width height = Ok gids ->
     exists dataBytes,
       decodeBase64' (Layer_Data l) = Ok dataBytes /\
       Z.of_nat (length dataBytes) = width * height * 4 /\
       Z.of_nat (length gids) = width * height /\
       forall x y, 0 <= x < width -> 0 <= y < height ->
         exists v, le32_at dataBytes (Z.to_nat (y * width + x)) = Some v /\
                   gids !! Z.to_nat (y * width + x) = Some v) /\
  (is_int (width * height * 4) ->
   forall dataBytes, decodeBase64' (Layer_Data l) = Ok dataBytes ->
     Z.of_nat (length dataBytes) <> width * height * 4 ->
     decodeLayerBase64' l width height = Err InvalidDecodedDataLenError).
Proof.
  intros Hint. pose proof (int_mul_exact width height Hint) as Hmul.
  split; [| split; [| split; [| split; [| split; [| split]]]]].
  - intros gids. unfold Layer_decode. rewrite <- Hmul.
    destruct (String.eqb _ "csv"); [intros H; apply decodeLayerCSV_Ok in H; apply H |].
    destruct (String.eqb _ "base64").
    { intros H. apply decodeLayerBase64_Ok in H. destruct H as (? & _ & _ & H & _). exact H. }
    destruct (String.eqb _ ""); [intros H; apply decodeLayerXML_Ok in H; apply H |].
    discriminate.
  - intros gids H. rewrite <- Hmul. by apply decodeLayerXML_Ok.
  - intros Hne. unfold decodeLayerXML. rewrite Hmul.
    destruct (Z.eqb_spec (Z.of_nat (length (Data_DataTiles (Layer_Data l))))
                (width * height)); [contradiction | reflexivity].
  - intros gids H. apply decodeLayerCSV_Ok in H. destruct H as (Hlen & Hcsv).
    split; [by rewrite <- Hmul |]. by apply decodeCSV_loop_tokens.
  - intros parsed Hcsv Hne. unfold decodeLayerCSV. rewrite Hcsv, Hmul. cbn [bind].
    destruct (Z.eqb_spec (Z.of_nat (length parsed)) (width * height));
      [contradiction | reflexivity].
  - intros gids Hrun.
    destruct (decodeLayerBase64_Ok l width height gids Hrun)
      as (dataBytes & Hdec & Hlen & Hn & Hcells).
    exists dataBytes. split; [exact Hdec |].
    unfold decodeLayerBase64 in Hrun. rewrite Hdec in Hrun. cbn [bind] in Hrun.
    apply decodeLayerBase64_bytes_Ok_alloc in Hrun. rewrite Hmul in Hrun, Hlen, Hn.
    split; [| split; [exact Hn | exact Hcells]].
    rewrite Hlen. apply int_mul_exact, maxAlloc_is_int. lia.
  - intros Hint4 dataBytes Hdec Hne. unfold decodeLayerBase64, decodeLayerBase64_bytes.
    rewrite Hdec, Hmul, (int_mul_exact _ _ Hint4). cbn [bind].
    destruct (Z.eqb_spec (Z.of_nat (length dataBytes)) (width * height * 4));
      [contradiction | reflexivity].
Qed.

(** C4: when the bytes of a base64 layer are exactly [width * height * 4],
    the layer is decoded, and the GID at [y * width + x] is the
    little-endian integer of the four bytes from [4 * (y * width + x)]. *)
Theorem decodeLayerBase64_little_endian (l : Layer) (dataBytes : list byte)
  (width height : Z) :
  decodeBase64' (Layer_Data l) = Ok dataBytes ->
  Z.of_nat (length dataBytes) = width * height * 4 ->
  Z.of_nat (length dataBytes) <= maxAlloc ->
  exists gids,
    decodeLayerBase64' l width height = Ok gids /\
    forall x y, 0 <= x < width -> 0 <= y < height ->
      exists b0 b1 b2 b3,
        dataBytes !! Z.to_nat (4 * (y * width + x)) = Some b0 /\
        dataBytes !! Z.to_nat (4 * (y * width + x) + 1) = Some b1 /\
        dataBytes !! Z.to_nat (4 * (y * width + x) + 2) = Some b2 /\
        dataBytes !! Z.to_nat (4 * (y * width + x) + 3) = Some b3 /\
        gids !! Z.to_nat (y * width + x)
        = Some (le32 (byte_num b0) (byte_num b1) (byte_num b2) (byte_num b3)).
Proof.
  intros Hdec Hlen Halloc. unfold decodeLayerBase64. rewrite Hdec. cbn [bind].
  destruct (Z.le_gt_cases width 0) as [Hw | Hw];
    [| destruct (Z.le_gt_cases height 0) as [Hh | Hh]].
  - eexists. split.
    + apply decodeLayerBase64_bytes_degenerate; [by left | lia | exact Halloc].
    + intros x y Hx Hy. lia.
  - eexists. split.
    + apply decodeLayerBase64_bytes_degenerate; [by right | lia | exact Halloc].
    + intros x y Hx Hy. lia.
  - destruct (decodeLayerBase64_bytes_exact dataBytes width height)
      as (gids & Hrun & _ & Hcells); [lia | lia | lia | exact Halloc |].
    exists gids. split; [exact Hrun |].
    intros x y Hx Hy. pose proof (cell_index width height y x Hy Hx) as Hc.
    destruct (Hcells (Z.to_nat (y * width + x)) ltac:(lia)) as (v & Hv & Hg).
    unfold le32_at in Hv.
    destruct (dataBytes !! (4 * Z.to_nat (y * width + x))%nat) as [b0 |] eqn:H0;
      [| discriminate].
    destruct (dataBytes !! (4 * Z.to_nat (y * width + x) + 1)%nat) as [b1 |] eqn:H1;
      [| discriminate].
    destruct (dataBytes !! (4 * Z.to_nat (y * width + x) + 2)%nat) as [b2 |] eqn:H2;
      [| discriminate].
    destruct (dataBytes !! (4 * Z.to_nat (y * width + x) + 3)%nat) as [b3 |] eqn:H3;
      [| discriminate].
    injection Hv as <-. exists b0, b1, b2, b3.
    replace (Z.to_nat (4 * (y * width + x)))
      with (4 * Z.to_nat (y * width + x))%nat by lia.
    replace (Z.to_nat (4 * (y * width + x) + 1))
      with (4 * Z.to_nat (y * width + x) + 1)%nat by lia.
    replace (Z.to_nat (4 * (y * width + x) + 2))
      with (4 * Z.to_nat (y * width + x) + 2)%nat by lia.
    replace (Z.to_nat (4 * (y * width + x) + 3))
      with (4 * Z.to_nat (y * width + x) + 3)%nat by lia.
    done.
Qed.

End PayloadProperties.

Lemma payload_decoders_witness :
  (exists gids, decodeLayerXML sample_xml_layer 2 2 = Ok gids /\
                Z.of_nat (length gids) = 2 * 2) /\
  decodeLayerXML sample_xml_layer 2 3 = Err InvalidDecodedDataLenError /\
  (exists gids, decodeLayerCSV sample_csv_layer 2 2 = Ok gids /\
                Z.of_nat (length gids) = 2 * 2) /\
  decodeLayerCSV sample_csv_layer 2 3 = Err InvalidDecodedDataLenError /\
  (exists gids,
     decodeLayerBase64 plain_TrimSpace base64_std no_inflate no_inflate
       sample_base64_layer 2 2 = Ok gids /\
     Z.of_nat (length gids) = 2 * 2 /\ gids !! 3%nat = Some 4294967295) /\
  decodeLayerBase64 plain_TrimSpace base64_std no_inflate no_inflate
    sample_base64_layer 2 3 = Err InvalidDecodedDataLenError.
Proof.
  pose proof (payload_decoders plain_TrimSpace base64_std no_inflate no_inflate) as T.
  assert (H22 : is_int (2 * 2)) by (unfold is_int; lia).
  assert (H23 : is_int (2 * 3)) by (unfold is_int; lia).
  split; [| split; [| split; [| split; [| split]]]].
  - destruct (T sample_xml_layer 2 2 H22) as (_ & Hxml & _).
    eexists. split; [reflexivity |]. apply Hxml. reflexivity.
  - destruct (T sample_xml_layer 2 3 H23) as (_ & _ & Hxml & _).
    apply Hxml. vm_compute. discriminate.
  - destruct (T sample_csv_layer 2 2 H22) as (_ & _ & _ & Hcsv & _).
    eexists. split; [reflexivity |]. apply Hcsv. reflexivity.
  - destruct (T sample_csv_layer 2 3 H23) as (_ & _ & _ & _ & Hcsv & _).
    eapply Hcsv; [reflexivity |]. vm_compute. discriminate.
  - destruct (T sample_base64_layer 2 2 H22) as (_ & _ & _ & _ & _ & Hb64 & _).
    eexists. split; [reflexivity |].
    edestruct Hb64 as (dataBytes & Hdec & _ & Hlen & Hcells); [reflexivity |].
    split; [exact Hlen |].
    destruct (Hcells 1 1 ltac:(lia) ltac:(lia)) as (v & Hv & Hg).
    vm_compute in Hdec. injection Hdec as <-.
    vm_compute in Hv. injection Hv as <-. exact Hg.
  - destruct (T sample_base64_layer 2 3 H23) as (_ & _ & _ & _ & _ & _ & Hb64).
    eapply Hb64; [unfold is_int; lia | reflexivity |]. vm_compute. discriminate.
Defined.

(** The sentence of C1 where the product of the width and the height leaves
    Go's [int]: with [6148914691236517206 * 3 = 2 ^ 64 + 2] a CSV layer of
    two tokens decodes to two GIDs, and with [2 ^ 31 * 2 ^ 31 * 4 = 2 ^ 64]
    a base64 layer without bytes passes the length check and panics in
    [make]: neither count is the product, and neither decode fails with
    InvalidDecodedDataLenError. *)
Lemma payload_decoders_overflow_counterexample :
  (decodeCSV (Layer_Data (sample_layer "csv" "" "1,2" [])) = Ok [1; 2] /\
   Z.of_nat (length [1; 2]) <> 6148914691236517206 * 3 /\
   decodeLayerCSV (sample_layer "csv" "" "1,2" []) 6148914691236517206 3
   = Ok [1; 2]) /\
  (decodeBase64 plain_TrimSpace base64_std no_inflate no_inflate
     (Layer_Data (sample_layer "base64" "" "" [])) = Ok [] /\
   Z.of_nat (length (@nil byte)) <> 2147483648 * 2147483648 * 4 /\
   decodeLayerBase64 plain_TrimSpace base64_std no_inflate no_inflate
     (sample_layer "base64" "" "" []) 2147483648 2147483648 = Panic).
Proof.
  split; (split; [| split]).
  - reflexivity.
  - vm_compute. discriminate.
  - vm_compute. reflexivity.
  - reflexivity.
  - vm_compute. discriminate.
  - vm_compute. reflexivity.
Qed.

Lemma decodeLayerBase64_little_endian_witness :
  exists gids,
    decodeLayerBase64 plain_TrimSpace base64_std no_inflate no_inflate
      sample_base64_layer 2 2 = Ok gids /\
    gids !! 1%nat = Some (le32 2 0 0 128) /\
    gids !! 2%nat = Some (le32 3 1 0 0).
Proof.
  destruct (decodeLayerBase64_little_endian plain_TrimSpace base64_std no_inflate
              no_inflate sample_base64_layer
              [x01; x00; x00; x00; x02; x00; x00; x80;
               x03; x01; x00; x00; xff; xff; xff; xff] 2 2)
    as (gids & Hrun & Hcells);
    [reflexivity | reflexivity | vm_compute; discriminate |].
  exists gids. split; [exact Hrun |]. split.
  - destruct (Hcells 1 0 ltac:(lia) ltac:(lia))
      as (b0 & b1 & b2 & b3 & H0 & H1 & H2 & H3 & Hg).
    injection H0 as <-. injection H1 as <-. injection H2 as <-. injection H3 as <-.
    exact Hg.
  - destruct (Hcells 0 1 ltac:(lia) ltac:(lia))
      as (b0 & b1 & b2 & b3 & H0 & H1 & H2 & H3 & Hg).
    injection H0 as <-. injection H1 as <-. injection H2 as <-. injection H3 as <-.
    exact Hg.
Defined.

(** ** [strconv.Atoi] and [decodePoints] *)

Lemma ParseUint_loop_cases (s0 cs : string) (maxVal n : Z) :
  match ParseUint_loop s0 cs maxVal n with
  | Ok _ => all_digits cs = true
  | Err e => exists kind, e = NumError "ParseUint" s0 kind
  | Panic => False
  end.
Proof.
  revert n. induction cs as [| c rest IH]; intros n; simpl; [reflexivity |].
  destruct (is_digit c); [| by eexists].
  destruct (n >=? maxUint64 / 10 + 1); [by eexists |].
  destruct (_ || _); [by eexists |]. apply IH.
Qed.

Lemma ParseUint_cases (s : string) (bitSize : Z) :
  match ParseUint s bitSize with
  | Ok _ => s <> "" /\ all_digits s = true
  | Err e => exists kind, e = NumError "ParseUint" s kind
  | Panic => False
  end.
Proof.
  unfold ParseUint. destruct s as [| c rest]; [by eexists |].
  pose proof (ParseUint_loop_cases (String c rest) (String c rest)
                (2 ^ (if bitSize =? 0 then 64 else bitSize) - 1) 0) as H.
  destruct (ParseUint_loop _ _ _ _); [| exact H | exact H].
  split; [discriminate | exact H].
Qed.

Lemma ParseInt_cases (s : string) :
  match ParseInt s with
  | Ok _ => is_numeral s = true
  | Err e => exists kind, e = NumError "ParseInt" s kind
  | Panic => False
  end.
Proof.
  unfold ParseInt, is_numeral. destruct s as [| c rest]; [by eexists |].
  destruct (Ascii.eqb c "-") eqn:Hm; cbn [orb].
  - rewrite orb_true_r. pose proof (ParseUint_cases rest 0) as H.
    destruct (ParseUint rest 0) as [un | e |]; [| | exact H].
    + destruct H as (Hne & Hd). cbn [negb andb].
      destruct (un >? 2 ^ 63); [by eexists |].
      rewrite Hd. apply String.eqb_neq in Hne. by rewrite Hne.
    + destruct H as (kind & ->). destruct kind; by eexists.
  - rewrite orb_false_r. destruct (Ascii.eqb c "+") eqn:Hp.
    + pose proof (ParseUint_cases rest 0) as H.
      destruct (ParseUint rest 0) as [un | e |]; [| | exact H].
      * destruct H as (Hne & Hd). cbn [negb andb].
        destruct (un >=? 2 ^ 63); [by eexists |].
        rewrite Hd. apply String.eqb_neq in Hne. by rewrite Hne.
      * destruct H as (kind & ->). destruct kind; by eexists.
    + pose proof (ParseUint_cases (String c rest) 0) as H.
      destruct (ParseUint (String c rest) 0) as [un | e |]; [| | exact H].
      * destruct H as (_ & Hd). cbn [negb andb].
        destruct (un >=? 2 ^ 63); [by eexists | exact Hd].
      * destruct H as (kind & ->). destruct kind; by eexists.
Qed.

Lemma Atoi_loop_cases (s0 cs : string) (n : Z) :
  match Atoi_loop s0 cs n with
  | Ok _ => all_digits cs = true
  | Err e => e = NumError "Atoi" s0 ErrSyntax
  | Panic => False
  end.
Proof.
  revert n. induction cs as [| ch rest IH]; intros n; simpl; [reflexivity |].
  destruct (is_digit ch); [apply IH | reflexivity].
Qed.

(** [Atoi] returns for numerals only, and otherwise fails with its
    [NumError]; it does not panic. *)
Lemma Atoi_cases (s : string) :
  match Atoi s with
  | Ok _ => is_numeral s = true
  | Err e => exists kind, e = NumError "Atoi" s kind
  | Panic => False
  end.
Proof.
  unfold Atoi.
  destruct ((0 <? Z.of_nat (String.length s)) && (Z.of_nat (String.length s) <? 19))
    eqn:Hfast.
  - destruct s as [| c rest]; [discriminate |].
    unfold is_numeral.
    destruct (Ascii.eqb c "-" || Ascii.eqb c "+") eqn:Hsigned.
    + destruct (Z.ltb_spec (Z.of_nat (String.length rest)) 1) as [Hlen | Hlen];
        [by eexists |].
      pose proof (Atoi_loop_cases (String c rest) rest 0) as H.
      destruct (Atoi_loop (String c rest) rest 0); cbn [bind];
        [| by eexists | exact H].
      rewrite H. destruct rest; [simpl in Hlen; lia | reflexivity].
    + destruct (Z.ltb_spec (Z.of_nat (String.length (String c rest))) 1) as [Hlen | _].
      { simpl String.length in Hlen. lia. }
      pose proof (Atoi_loop_cases (String c rest) (String c rest) 0) as H.
      destruct (Atoi_loop (String c rest) (String c rest) 0); cbn [bind];
        [exact H | by eexists | exact H].
  - pose proof (ParseInt_cases s) as H.
    destruct (ParseInt s) as [n | e |]; [exact H | | exact H].
    destruct H as (kind & ->). by eexists.
Qed.

Lemma Atoi_not_numeral (s : string) :
  is_numeral s = false -> exists kind, Atoi s = Err (NumError "Atoi" s kind).
Proof.
  intros Hn. pose proof (Atoi_cases s) as H.
  destruct (Atoi s) as [n | e |]; [congruence | | contradiction].
  destruct H as (kind & ->). by exists kind.
Qed.

Lemma decodePoints_loop_Ok (pointStrings : list string) (points : list Point) :
  decodePoints_loop pointStrings = Ok points <->
  Forall2 point_token pointStrings points.
Proof.
  revert points. induction pointStrings as [| token rest IH]; intros points.
  - simpl. split.
    + intros [= <-]. constructor.
    + intros H. inversion H. reflexivity.
  - cbn [decodePoints_loop]. split.
    + destruct (strings_Split token ",") as [| cx [| cy [| ? ?]]] eqn:Hsplit;
        try discriminate.
      destruct (Atoi cx) as [x | |] eqn:Hx; try discriminate. cbn [bind].
      destruct (Atoi cy) as [y | |] eqn:Hy; try discriminate. cbn [bind].
      destruct (decodePoints_loop rest) as [points' | |] eqn:Hrest; try discriminate.
      cbn [bind]. intros [= <-]. constructor; [| by apply IH].
      exists cx, cy. done.
    + intros H. inversion H as [| ? p ? points' (cx & cy & Hsplit & Hx & Hy) Hrest];
        subst.
      rewrite Hsplit, Hx, Hy. cbn [bind].
      apply IH in Hrest. rewrite Hrest. cbn [bind]. by destruct p.
Qed.

(** The first token that does not conform decides the error. *)
Lemma decodePoints_loop_Err (before after : list string) (token : string)
  (points : list Point) :
  Forall2 point_token before points ->
  (length (strings_Split token ",") <> 2%nat ->
   decodePoints_loop (before ++ token :: after) = Err InvalidPointsFieldError) /\
  (forall cx cy, strings_Split token "," = [cx; cy] ->
     is_numeral cx = false \/ is_numeral cy = false ->
     exists num kind,
       decodePoints_loop (before ++ token :: after) = Err (NumError "Atoi" num kind) /\
       (num = cx \/ num = cy)).
Proof.
  intros Hbefore. induction Hbefore as [| tok p before' points' Htok _ IH].
  - simpl. split.
    + intros Hlen.
      destruct (strings_Split token ",") as [| cx [| cy [| ? ?]]]; try reflexivity.
      simpl in Hlen. lia.
    + intros cx cy -> Hbad.
      pose proof (Atoi_cases cx) as Hx.
      destruct (Atoi cx) as [x | e |]; [| | contradiction].
      * cbn [bind]. destruct Hbad as [Hbad | Hbad]; [congruence |].
        destruct (Atoi_not_numeral cy Hbad) as (kind & ->). cbn [bind].
        exists cy, kind. by split; [| right].
      * destruct Hx as (kind & ->). cbn [bind]. exists cx, kind. by split; [| left].
  - destruct Htok as (cx' & cy' & Hsplit & Hx & Hy).
    cbn [app decodePoints_loop]. rewrite Hsplit, Hx, Hy. cbn [bind].
    destruct IH as (IH1 & IH2). split.
    + intros Hlen. rewrite (IH1 Hlen). reflexivity.
    + intros cx cy Hs Hbad. destruct (IH2 cx cy Hs Hbad) as (num & kind & -> & Hnum).
      cbn [bind]. by exists num, kind.
Qed.

(** C8, as the code has it: [decodePoints] returns the points of the
    tokens, in their order, exactly when every token between single spaces
    has two fields around one comma that [Atoi] reads, as for
    "0,0 10,0 10,10"; otherwise the first token that does not conform
    decides: a field count other than two gives InvalidPointsFieldError, as
    for "0,0 bad", and a field that is no numeral gives the [NumError] of
    [Atoi]. *)
Theorem decodePoints_tokens (s : string) :
  (forall points,
      decodePoints s = Ok points <->
      Forall2 point_token (strings_Split s " ") points) /\
  (forall (before : list string) (token : string) (after : list string)
          (points : list Point),
      strings_Split s " " = (before ++ token :: after)%list ->
      Forall2 point_token before points ->
      (length (strings_Split token ",") <> 2%nat ->
       decodePoints s = Err InvalidPointsFieldError) /\
      (forall cx cy, strings_Split token "," = [cx; cy] ->
         is_numeral cx = false \/ is_numeral cy = false ->
         exists num kind,
           decodePoints s = Err (NumError "Atoi" num kind) /\
           (num = cx \/ num = cy))) /\
  decodePoints "0,0 10,0 10,10" =
    Ok [{| Point_X := 0; Point_Y := 0 |}; {| Point_X := 10; Point_Y := 0 |};
        {| Point_X := 10; Point_Y := 10 |}] /\
  decodePoints "0,0 bad" = Err InvalidPointsFieldError.
Proof.
  split; [| split; [| split; reflexivity]].
  - intros points. apply decodePoints_loop_Ok.
  - intros before token after points Hsplit Hbefore. unfold decodePoints.
    rewrite Hsplit. by apply decodePoints_loop_Err with points.
Qed.

Lemma decodePoints_tokens_witness :
  decodePoints "3,4 5" = Err InvalidPointsFieldError /\
  (exists num kind, decodePoints "3,4 5,x7" = Err (NumError "Atoi" num kind)) /\
  decodePoints "-3,4 +5,60" =
    Ok [{| Point_X := -3; Point_Y := 4 |}; {| Point_X := 5; Point_Y := 60 |}].
Proof.
  assert (H34 : Forall2 point_token ["3,4"] [{| Point_X := 3; Point_Y := 4 |}]).
  { repeat constructor. by exists "3", "4". }
  split; [| split].
  - destruct (decodePoints_tokens "3,4 5") as (_ & Herr & _).
    destruct (Herr ["3,4"] "5" [] _ eq_refl H34) as (Hcount & _).
    apply Hcount. simpl. lia.
  - destruct (decodePoints_tokens "3,4 5,x7") as (_ & Herr & _).
    destruct (Herr ["3,4"] "5,x7" [] _ eq_refl H34) as (_ & Hnum).
    destruct (Hnum "5" "x7" eq_refl) as (num & kind & H & _); [by right |].
    by exists num, kind.
  - destruct (decodePoints_tokens "-3,4 +5,60") as (Hok & _).
    apply Hok. repeat constructor; [by exists "-3", "4" | by exists "+5", "60"].
Defined.

(** The sentence of C8 on a token with a field that is no numeral: the error
    is not InvalidPointsFieldError. *)
Lemma decodePoints_not_numeral_counterexample :
  strings_Split "0,0 1,b" " " = ["0,0"; "1,b"] /\
  strings_Split "1,b" "," = ["1"; "b"] /\
  is_numeral "b" = false /\
  decodePoints "0,0 1,b" = Err (NumError "Atoi" "b" ErrSyntax) /\
  decodePoints "0,0 1,b" <> Err InvalidPointsFieldError.
Proof.
  repeat split; discriminate.
Qed.

(** ** Round trips of the two text and binary encodings *)

Lemma is_digit_val (c : ascii) :
  is_digit c = true -> 0 <= byte_val c - byte_val "0" <= 9.
Proof.
  unfold is_digit. change (byte_val "0") with 48. change (byte_val "9") with 57.
  intros H. apply andb_true_iff in H. lia.
Qed.

Lemma dec_value_ge (cs : string) (a : Z) :
  all_digits cs = true -> 0 <= a -> a <= dec_value cs a.
Proof.
  revert a. induction cs as [| c rest IH]; intros a Hd Ha; simpl; [lia |].
  simpl in Hd. apply andb_true_iff in Hd. destruct Hd as (Hc & Hrest).
  apply is_digit_val in Hc.
  specialize (IH (a * 10 + (byte_val c - byte_val "0")) Hrest ltac:(lia)). lia.
Qed.

(** On digits whose number fits, [ParseUint] returns that number. *)
Lemma ParseUint_loop_value (s0 cs : string) (maxVal a : Z) :
  all_digits cs = true -> 0 <= a -> maxVal <= maxUint64 ->
  dec_value cs a <= maxVal ->
  ParseUint_loop s0 cs maxVal a = Ok (dec_value cs a).
Proof.
  revert a. induction cs as [| c rest IH]; intros a Hd Ha Hmax Hv; simpl; [reflexivity |].
  simpl in Hd, Hv. apply andb_true_iff in Hd. destruct Hd as (Hc & Hrest).
  rewrite Hc. pose proof (is_digit_val c Hc) as Hdig.
  pose proof (dec_value_ge rest (a * 10 + (byte_val c - byte_val "0")) Hrest
                ltac:(lia)) as Hge.
  unfold maxUint64 in *.
  change ((2 ^ 64 - 1) / 10 + 1) with 1844674407370955162.
  change (2 ^ 64) with 18446744073709551616 in *.
  destruct (Z.geb_spec a 1844674407370955162); [lia |].
  rewrite (Z.mod_small (a * 10)) by lia.
  rewrite (Z.mod_small (a * 10 + _)) by lia.
  destruct (Z.ltb_spec (a * 10 + (byte_val c - byte_val "0")) (a * 10)); [lia |].
  destruct (Z.gtb_spec (a * 10 + (byte_val c - byte_val "0")) maxVal); [lia |].
  cbn [orb]. apply IH; [exact Hrest | lia | lia | exact Hv].
Qed.

Lemma digit_char_spec (d : Z) :
  0 <= d <= 9 ->
  is_digit (digit_char d) = true /\ byte_val (digit_char d) - byte_val "0" = d.
Proof.
  intros Hd.
  assert (Hc : d = 0 \/ d = 1 \/ d = 2 \/ d = 3 \/ d = 4 \/ d = 5 \/ d = 6 \/
               d = 7 \/ d = 8 \/ d = 9) by lia.
  repeat destruct Hc as [-> | Hc]; try subst d; split; reflexivity.
Qed.

Lemma decimal_acc_digits (fuel : nat) (n : Z) (acc : string) :
  0 <= n -> all_digits acc = true -> all_digits (decimal_acc fuel n acc) = true.
Proof.
  revert n acc. induction fuel as [| fuel IH]; intros n acc Hn Hacc; simpl; [exact Hacc |].
  assert (Hd : all_digits (String (digit_char (n mod 10)) acc) = true).
  { simpl. rewrite Hacc.
    destruct (digit_char_spec (n mod 10)) as (-> & _); [| reflexivity].
    pose proof (Z.mod_pos_bound n 10). lia. }
  destruct (n / 10 =? 0); [exact Hd |].
  apply IH; [| exact Hd]. apply Z.div_pos; lia.
Qed.

Lemma decimal_acc_value (fuel : nat) (n : Z) (acc : string) :
  0 <= n < 10 ^ Z.of_nat fuel ->
  dec_value (decimal_acc fuel n acc) 0 = dec_value acc n.
Proof.
  revert n acc. induction fuel as [| fuel IH]; intros n acc Hn.
  - simpl in *. f_equal. lia.
  - cbn [decimal_acc].
    pose proof (Z.mod_pos_bound n 10 ltac:(lia)) as Hmod.
    destruct (digit_char_spec (n mod 10) ltac:(lia)) as (_ & Hval).
    pose proof (Z.div_mod n 10 ltac:(lia)) as Hdm.
    destruct (Z.eqb_spec (n / 10) 0) as [Hz | Hnz].
    + simpl. rewrite Hval. f_equal. lia.
    + rewrite IH.
      * simpl. rewrite Hval. f_equal. lia.
      * rewrite Nat2Z.inj_succ, Z.pow_succ_r in Hn by lia.
        split; [apply Z.div_pos; lia |].
        apply Z.div_lt_upper_bound; lia.
Qed.

Lemma decimal_digits (n : Z) : 0 <= n -> all_digits (decimal n) = true.
Proof. intros Hn. by apply decimal_acc_digits. Qed.

Lemma decimal_acc_not_empty (fuel : nat) (n : Z) (acc : string) :
  acc <> "" -> decimal_acc fuel n acc <> "".
Proof.
  revert n acc. induction fuel as [| fuel IH]; intros n acc Hacc; simpl; [exact Hacc |].
  destruct (n / 10 =? 0); [discriminate |]. apply IH. discriminate.
Qed.

Lemma decimal_acc_S_not_empty (fuel : nat) (n : Z) (acc : string) :
  decimal_acc (S fuel) n acc <> "".
Proof.
  cbn [decimal_acc]. destruct (n / 10 =? 0); [discriminate |].
  apply decimal_acc_not_empty. discriminate.
Qed.

Lemma decimal_not_empty (n : Z) : decimal n <> "".
Proof. exact (decimal_acc_S_not_empty 9 n ""). Qed.

(** Reading back the decimal numeral of a [uint32]. *)
Lemma ParseUint_decimal (n : Z) : is_u32 n -> ParseUint (decimal n) 32 = Ok n.
Proof.
  intros [Hlo Hhi]. unfold ParseUint.
  pose proof (decimal_not_empty n) as Hne.
  destruct (decimal n) as [| c rest] eqn:Hdec; [contradiction |].
  change (if 32 =? 0 then 64 else 32) with 32. rewrite <- Hdec.
  assert (Hv : dec_value (decimal n) 0 = n).
  { unfold decimal. rewrite decimal_acc_value; [reflexivity |].
    change (10 ^ Z.of_nat 10) with 10000000000. lia. }
  rewrite ParseUint_loop_value; [by rewrite Hv | by apply decimal_digits | lia | |].
  - unfold maxUint64. lia.
  - rewrite Hv. lia.
Qed.

Lemma strings_Split_digits (token : string) :
  all_digits token = true -> strings_Split token "," = [token].
Proof.
  induction token as [| c rest IH]; intros Hd; [reflexivity |].
  simpl in Hd. apply andb_true_iff in Hd. destruct Hd as (Hc & Hrest).
  cbn [strings_Split].
  destruct (Ascii.eqb_spec c ","%char) as [-> | _]; [discriminate |].
  by rewrite IH.
Qed.

Lemma strings_Split_digits_comma (token rest : string) :
  all_digits token = true ->
  strings_Split (token ++ String "," rest) "," = token :: strings_Split rest ",".
Proof.
  induction token as [| c token' IH]; intros Hd.
  - reflexivity.
  - simpl in Hd. apply andb_true_iff in Hd. destruct Hd as (Hc & Hrest).
    cbn [String.append strings_Split].
    destruct (Ascii.eqb_spec c ","%char) as [-> | _]; [discriminate |].
    by rewrite IH.
Qed.

(** Splitting numerals joined by commas gives the numerals back, when there
    is one at least. *)
Lemma strings_Split_join_commas (tokens : list string) :
  tokens <> [] -> Forall (fun token => all_digits token = true) tokens ->
  strings_Split (join_commas tokens) "," = tokens.
Proof.
  induction tokens as [| token rest IH]; intros Hne Hd; [contradiction |].
  inversion Hd as [| ? ? Htoken Hrest]; subst.
  destruct rest as [| token' rest'].
  - simpl. by apply strings_Split_digits.
  - change (join_commas (token :: token' :: rest'))
      with (token ++ String "," (join_commas (token' :: rest'))).
    rewrite strings_Split_digits_comma by exact Htoken.
    rewrite IH; [reflexivity | discriminate | exact Hrest].
Qed.

Lemma decodeCSV_loop_decimal (gids : list Z) :
  Forall is_u32 gids -> decodeCSV_loop (map decimal gids) = Ok gids.
Proof.
  induction 1 as [| gid rest Hgid _ IH]; [reflexivity |].
  simpl. rewrite ParseUint_decimal by exact Hgid. cbn [bind].
  rewrite IH. cbn [bind]. by rewrite wrap_u32_small.
Qed.

(** The CSV text of a grid that is not empty decodes to the grid. *)
Lemma decodeCSV_encodeCSV (d : Data) (gids : list Z) :
  gids <> [] -> Forall is_u32 gids ->
  strings_Map cleaner (Data_RawData d) = encodeCSV gids ->
  decodeCSV d = Ok gids.
Proof.
  intros Hne Hgids Hraw. unfold decodeCSV. rewrite Hraw. unfold encodeCSV.
  rewrite strings_Split_join_commas.
  - by apply decodeCSV_loop_decimal.
  - by destruct gids.
  - rewrite Forall_fmap. eapply Forall_impl; [exact Hgids |].
    intros gid [Hlo _]. by apply decimal_digits.
Qed.

Lemma byte_num_byte_of_Z (z : Z) : byte_num (byte_of_Z z) = z mod 2 ^ 8.
Proof.
  unfold byte_num, byte_of_Z.
  pose proof (Z.mod_pos_bound z (2 ^ 8) ltac:(lia)) as Hb.
  change (2 ^ 8) with 256 in *. set (r := z mod 256) in *.
  destruct (Byte.of_N (Z.to_N r)) as [b |] eqn:Hof.
  - apply Byte.to_of_N in Hof. rewrite Hof. lia.
  - apply Byte.of_N_None_iff in Hof. lia.
Qed.

Lemma le32_bytes (gid : Z) :
  is_u32 gid ->
  le32 (byte_num (byte_of_Z gid)) (byte_num (byte_of_Z (gid / 2 ^ 8)))
       (byte_num (byte_of_Z (gid / 2 ^ 16))) (byte_num (byte_of_Z (gid / 2 ^ 24)))
  = gid.
Proof.
  intros [Hlo Hhi]. rewrite !byte_num_byte_of_Z. unfold le32.
  change (2 ^ 8) with 256. change (2 ^ 16) with 65536.
  change (2 ^ 24) with 16777216. change (2 ^ 32) with 4294967296 in Hhi.
  Z.div_mod_to_equations. lia.
Qed.

Lemma length_le_bytes (gids : list Z) :
  length (le_bytes gids) = (4 * length gids)%nat.
Proof. induction gids as [| gid rest IH]; simpl; [reflexivity | lia]. Qed.

(** The group of four bytes of cell [k] of the binary format holds GID
    [k]. *)
Lemma le32_at_le_bytes (gids : list Z) (k : nat) (gid : Z) :
  Forall is_u32 gids -> gids !! k = Some gid ->
  le32_at (le_bytes gids) k = Some gid.
Proof.
  intros Hgids. revert k. induction Hgids as [| g rest Hg _ IH]; intros k Hk.
  - discriminate.
  - destruct k as [| k].
    + injection Hk as <-. unfold le32_at. simpl. by rewrite le32_bytes.
    + simpl in Hk. specialize (IH k Hk). unfold le32_at in *.
      replace (4 * S k)%nat with (S (S (S (S (4 * k))))) by lia.
      exact IH.
Qed.

Section EncodingsAgree.

Variable bytes_TrimSpace : string -> string.
Variable base64_decode : string -> result (list byte).
Variable gzip_inflate : string -> result (list byte).
Variable zlib_inflate : string -> result (list byte).

Local Abbreviation decodeBase64' :=
  (decodeBase64 bytes_TrimSpace base64_decode gzip_inflate zlib_inflate).
Local Abbreviation decodeLayerBase64' :=
  (decodeLayerBase64 bytes_TrimSpace base64_decode gzip_inflate zlib_inflate).

(** The bytes of a grid with a column and a row decode to the grid. *)
Lemma decodeLayerBase64_bytes_le_bytes (gids : list Z) (width height : Z) :
  0 < width -> 0 < height ->
  Z.of_nat (length gids) = width * height ->
  Forall is_u32 gids ->
  4 * (width * height) <= maxAlloc ->
  decodeLayerBase64_bytes (le_bytes gids) width height = Ok gids.
Proof.
  intros Hw Hh Hlen Hgids Halloc.
  destruct (decodeLayerBase64_bytes_exact (le_bytes gids) width height)
    as (gids' & Hrun & Hlen' & Hcells);
    try (rewrite length_le_bytes; lia); try assumption.
  rewrite Hrun. f_equal. apply list_eq. intros i.
  destruct (decide (i < length gids)%nat) as [Hi | Hi].
  - destruct (lookup_lt_is_Some_2 gids i Hi) as (gid & Hgid).
    destruct (Hcells i ltac:(lia)) as (v & Hv & Hg).
    rewrite (le32_at_le_bytes gids i gid Hgids Hgid) in Hv.
    injection Hv as <-. by rewrite Hg, Hgid.
  - rewrite !lookup_ge_None_2 by lia. reflexivity.
Qed.

(** C6, for a grid with a column and a row at least: the CSV text and the
    uncompressed base64 bytes of the same GIDs decode to these GIDs, and so
    resolve to the same tiles against any tileset list. *)
Theorem csv_base64_agree (m : Map) (lc lb : Layer) (gids : list Z)
  (width height : Z) :
  0 < width -> 0 < height ->
  Z.of_nat (length gids) = width * height ->
  Forall is_u32 gids ->
  4 * (width * height) <= maxAlloc ->
  strings_Map cleaner (Data_RawData (Layer_Data lc)) = encodeCSV gids ->
  Data_Compression (Layer_Data lb) = "" ->
  base64_decode (bytes_TrimSpace (Data_RawData (Layer_Data lb))) = Ok (le_bytes gids) ->
  decodeLayerCSV lc width height = Ok gids /\
  decodeLayerBase64' lb width height = Ok gids /\
  (let* csv := decodeLayerCSV lc width height in decodeGIDs m csv)
  = (let* b64 := decodeLayerBase64' lb width height in decodeGIDs m b64).
Proof.
  intros Hw Hh Hlen Hgids Halloc Hcsv Hcomp Hb64.
  assert (Hn : 0 < width * height) by nia.
  assert (Hmul : int_mul width height = width * height).
  { apply int_mul_exact, maxAlloc_is_int. lia. }
  assert (H1 : decodeLayerCSV lc width height = Ok gids).
  { unfold decodeLayerCSV. rewrite (decodeCSV_encodeCSV _ gids); try assumption.
    - cbn [bind]. rewrite Hmul.
      destruct (Z.eqb_spec (Z.of_nat (length gids)) (width * height));
        [reflexivity | contradiction].
    - intros ->. simpl in Hlen. lia. }
  assert (H2 : decodeLayerBase64' lb width height = Ok gids).
  { unfold decodeLayerBase64, decodeBase64. rewrite Hcomp. cbn [String.eqb].
    rewrite Hb64. cbn [bind].
    by apply decodeLayerBase64_bytes_le_bytes. }
  split; [exact H1 |]. split; [exact H2 |]. by rewrite H1, H2.
Qed.

End EncodingsAgree.

Lemma csv_base64_agree_witness :
  decodeLayerCSV sample_csv_layer 2 2 = Ok [1; 2147483650; 259; 4294967295] /\
  decodeLayerBase64 plain_TrimSpace base64_std no_inflate no_inflate
    sample_base64_layer 2 2 = Ok [1; 2147483650; 259; 4294967295] /\
  (let* csv := decodeLayerCSV sample_csv_layer 2 2 in
   decodeGIDs (sample_map 2 2 0 []) csv)
  = (let* b64 := decodeLayerBase64 plain_TrimSpace base64_std no_inflate no_inflate
                   sample_base64_layer 2 2 in
     decodeGIDs (sample_map 2 2 0 []) b64).
Proof.
  apply (csv_base64_agree plain_TrimSpace base64_std no_inflate no_inflate
           (sample_map 2 2 0 []) sample_csv_layer sample_base64_layer
           [1; 2147483650; 259; 4294967295] 2 2).
  - lia.
  - lia.
  - reflexivity.
  - repeat constructor; vm_compute; discriminate.
  - vm_compute. discriminate.
  - vm_compute. reflexivity.
  - reflexivity.
  - vm_compute. reflexivity.
Defined.

(** The sentence of C6 without a column and a row: the CSV text of the grid
    without cells does not decode while its bytes do, and with a negative
    width and height the bytes decode to zeroes; the resolved sequences
    differ. *)
Lemma csv_base64_degenerate_counterexample :
  (Z.of_nat (length (@nil Z)) = 0 * 0 /\
   strings_Map cleaner "" = encodeCSV [] /\
   base64_std (plain_TrimSpace "") = Ok (le_bytes []) /\
   decodeLayerCSV (sample_layer "csv" "" "" []) 0 0
   = Err (NumError "ParseUint" "" ErrSyntax) /\
   decodeLayerBase64 plain_TrimSpace base64_std no_inflate no_inflate
     (sample_layer "base64" "" "" []) 0 0 = Ok [] /\
   (let* csv := decodeLayerCSV (sample_layer "csv" "" "" []) 0 0 in
    decodeGIDs (sample_map 0 0 0 []) csv)
   <> (let* b64 := decodeLayerBase64 plain_TrimSpace base64_std no_inflate no_inflate
                     (sample_layer "base64" "" "" []) 0 0 in
       decodeGIDs (sample_map 0 0 0 []) b64)) /\
  (Z.of_nat (length [7; 8; 9; 10]) = -2 * -2 /\
   strings_Map cleaner "7,8,9,10" = encodeCSV [7; 8; 9; 10] /\
   base64_std (plain_TrimSpace "BwAAAAgAAAAJAAAACgAAAA==") = Ok (le_bytes [7; 8; 9; 10]) /\
   decodeLayerCSV (sample_layer "csv" "" "7,8,9,10" []) (-2) (-2) = Ok [7; 8; 9; 10] /\
   decodeLayerBase64 plain_TrimSpace base64_std no_inflate no_inflate
     (sample_layer "base64" "" "BwAAAAgAAAAJAAAACgAAAA==" []) (-2) (-2)
   = Ok [0; 0; 0; 0] /\
   (let* csv := decodeLayerCSV (sample_layer "csv" "" "7,8,9,10" []) (-2) (-2) in
    decodeGIDs (sample_map (-2) (-2) 0 []) csv)
   <> (let* b64 := decodeLayerBase64 plain_TrimSpace base64_std no_inflate no_inflate
                     (sample_layer "base64" "" "BwAAAAgAAAAJAAAACgAAAA==" [])
                     (-2) (-2) in
       decodeGIDs (sample_map (-2) (-2) 0 []) b64)).
Proof.
  split.
  - split; [reflexivity |]. split; [reflexivity |]. split; [reflexivity |].
    split; [vm_compute; reflexivity |]. split; [vm_compute; reflexivity |].
    vm_compute. discriminate.
  - split; [reflexivity |]. split; [vm_compute; reflexivity |].
    split; [vm_compute; reflexivity |]. split; [vm_compute; reflexivity |].
    split; [vm_compute; reflexivity |].
    vm_compute. intros H. discriminate H.
Qed.

(** * Further properties *)

(** ** [decodeGID]: flags, reconstruction, ascending tilesets *)

(** What a return of the scan says about the tilesets. *)
Lemma decodeGID_scan_Ok_inv (m : Map) (gid gidBare : Z) (n : nat) (t : DecodedTile) :
  decodeGID_scan m gid gidBare n = Ok t ->
  exists (i : nat) (ts : Tileset),
    (i < n)%nat /\ Map_Tilesets m !! i = Some ts /\
    Tileset_FirstGID ts <= gidBare /\
    (forall j ts', (i < j)%nat -> (j < n)%nat -> Map_Tilesets m !! j = Some ts' ->
                   gidBare < Tileset_FirstGID ts') /\
    t = resolved gid gidBare i ts.
Proof.
  induction n as [| k IH]; simpl; [discriminate |].
  destruct (Map_Tilesets m !! k) as [ts |] eqn:Hk; [| discriminate].
  destruct (Z.leb_spec (Tileset_FirstGID ts) gidBare) as [Hle | Hgt].
  - intros [= <-]. exists k, ts. repeat split; try done; try lia.
  - intros H. destruct (IH H) as (i & ts0 & Hi & Hts & Hle & Hafter & ->).
    exists i, ts0. repeat split; try done; try lia.
    intros j ts' Hij Hj Hl. destruct (decide (j = k)) as [-> | Hne].
    + rewrite Hk in Hl. injection Hl as <-. exact Hgt.
    + apply (Hafter j ts'); [lia | lia | exact Hl].
Qed.

Lemma decodeGID_scan_no_Panic (m : Map) (gid gidBare : Z) (n : nat) :
  (n <= length (Map_Tilesets m))%nat ->
  decodeGID_scan m gid gidBare n <> Panic.
Proof.
  induction n as [| k IH]; intros Hn; simpl; [discriminate |].
  destruct (lookup_lt_is_Some_2 (Map_Tilesets m) k ltac:(lia)) as [ts ->].
  destruct (Tileset_FirstGID ts <=? gidBare); [discriminate | apply IH; lia].
Qed.

Lemma decodeGID_scan_Err (m : Map) (gid gidBare : Z) (n : nat) (e : error) :
  decodeGID_scan m gid gidBare n = Err e -> e = InvalidGIDError.
Proof.
  induction n as [| k IH]; simpl; [by intros [= <-] |].
  destruct (Map_Tilesets m !! k) as [ts |]; [| discriminate].
  destruct (Tileset_FirstGID ts <=? gidBare); [discriminate | exact IH].
Qed.

(** [decodeGID] returns a tile or InvalidGIDError; it does not panic. *)
Lemma decodeGID_cases (m : Map) (gid : Z) :
  (exists t, decodeGID m gid = Ok t) \/ decodeGID m gid = Err InvalidGIDError.
Proof.
  unfold decodeGID. destruct (gid =? 0); [left; by eexists |].
  pose proof (decodeGID_scan_no_Panic m gid (Z.ldiff gid gidFlip)
                (length (Map_Tilesets m)) ltac:(lia)) as Hp.
  destruct (decodeGID_scan m gid (Z.ldiff gid gidFlip) (length (Map_Tilesets m)))
    as [t | e |] eqn:Hs; [left; by eexists | right | contradiction].
  by apply decodeGID_scan_Err in Hs as ->.
Qed.

(** The scan depends on the GID through the bare GID and the flags only. *)
Lemma decodeGID_scan_flags (m : Map) (gid1 gid2 gidBare : Z) (n : nat) :
  match decodeGID_scan m gid1 gidBare n, decodeGID_scan m gid2 gidBare n with
  | Ok t1, Ok t2 =>
      DecodedTile_ID t1 = DecodedTile_ID t2 /\
      DecodedTile_Tileset t1 = DecodedTile_Tileset t2
  | Err e1, Err e2 => e1 = e2
  | Panic, Panic => True
  | _, _ => False
  end.
Proof.
  induction n as [| k IH]; simpl; [reflexivity |].
  destruct (Map_Tilesets m !! k) as [ts |]; [| exact I].
  destruct (Tileset_FirstGID ts <=? gidBare); [by split | exact IH].
Qed.

(** The flip flags do not take part in the resolution: two non-zero GIDs
    with the same low 29 bits resolve to the same tileset and local ID, or
    both fail. *)
Theorem decodeGID_flags_irrelevant (m : Map) (gid1 gid2 : Z) :
  is_u32 gid1 -> is_u32 gid2 -> gid1 <> 0 -> gid2 <> 0 ->
  gid1 mod 2 ^ 29 = gid2 mod 2 ^ 29 ->
  (forall t1, decodeGID m gid1 = Ok t1 ->
     exists t2, decodeGID m gid2 = Ok t2 /\
                DecodedTile_ID t2 = DecodedTile_ID t1 /\
                DecodedTile_Tileset t2 = DecodedTile_Tileset t1) /\
  (forall e, decodeGID m gid1 = Err e -> decodeGID m gid2 = Err e).
Proof.
  intros H1 H2 Hn1 Hn2 Hbare.
  rewrite !decodeGID_nonzero by assumption.
  rewrite (ldiff_gidFlip gid1 H1), (ldiff_gidFlip gid2 H2), Hbare.
  pose proof (decodeGID_scan_flags m gid1 gid2 (gid2 mod 2 ^ 29)
                (length (Map_Tilesets m))) as H.
  destruct (decodeGID_scan m gid1 _ _) as [t1 | e1 |],
           (decodeGID_scan m gid2 _ _) as [t2 | e2 |]; try contradiction.
  - split; [| discriminate]. intros t [= <-]. exists t2. by destruct H as [-> ->].
  - split; [discriminate |]. intros e [= <-]. by rewrite H.
  - split; discriminate.
Qed.

Lemma decodeGID_flags_irrelevant_witness :
  exists t2, decodeGID (sample_map 2 2 0 []) 0x4000000C = Ok t2 /\
             DecodedTile_ID t2 = 1 /\ DecodedTile_Tileset t2 = Some 1%nat.
Proof.
  destruct (decodeGID_flags_irrelevant (sample_map 2 2 0 []) 12 0x4000000C)
    as (Hok & _);
    [unfold is_u32; lia | unfold is_u32; lia | lia | lia | reflexivity |].
  exact (Hok (resolved 12 12 1 (sample_tileset 11)) eq_refl).
Defined.

Lemma land_pow2 (gid k : Z) :
  0 <= k -> Z.land gid (2 ^ k) = if Z.testbit gid k then 2 ^ k else 0.
Proof.
  intros Hk. apply Z.bits_inj'. intros n Hn.
  rewrite Z.land_spec, Z.pow2_bits_eqb by lia.
  destruct (Z.eqb_spec k n) as [-> | Hne].
  - destruct (Z.testbit gid n); [by rewrite Z.pow2_bits_true | by rewrite Z.bits_0].
  - rewrite andb_false_r.
    destruct (Z.testbit gid k); [by rewrite Z.pow2_bits_false | by rewrite Z.bits_0].
Qed.

(** A flip flag of the source is a bit of the GID. *)
Lemma flag_testbit (gid k : Z) :
  0 <= k -> negb (Z.land gid (2 ^ k) =? 0) = Z.testbit gid k.
Proof.
  intros Hk. rewrite land_pow2 by exact Hk.
  destruct (Z.testbit gid k); [| reflexivity].
  destruct (Z.eqb_spec (2 ^ k) 0) as [H0 |]; [| reflexivity].
  pose proof (Z.pow_pos_nonneg 2 k). lia.
Qed.

Lemma u32_bits_sum (gid : Z) :
  is_u32 gid ->
  gid = gid mod 2 ^ 29
        + (if Z.testbit gid 31 then 2 ^ 31 else 0)
        + (if Z.testbit gid 30 then 2 ^ 30 else 0)
        + (if Z.testbit gid 29 then 2 ^ 29 else 0).
Proof.
  intros [Hlo Hhi].
  pose proof (Z.testbit_spec' gid 31 ltac:(lia)) as H31.
  pose proof (Z.testbit_spec' gid 30 ltac:(lia)) as H30.
  pose proof (Z.testbit_spec' gid 29 ltac:(lia)) as H29.
  change (2 ^ 29) with 536870912 in *. change (2 ^ 30) with 1073741824 in *.
  change (2 ^ 31) with 2147483648 in *. change (2 ^ 32) with 4294967296 in *.
  destruct (Z.testbit gid 31), (Z.testbit gid 30), (Z.testbit gid 29);
    simpl Z.b2z in *; Z.div_mod_to_equations; lia.
Qed.

(** A resolved tile keeps the whole GID: the first GID of its tileset, its
    local ID and its flip bits add up to the GID, and the local ID is below
    [2 ^ 29]. *)
Theorem decodeGID_reconstruct (m : Map) (gid : Z) (t : DecodedTile) :
  is_u32 gid -> gid <> 0 ->
  Forall (fun ts => is_u32 (Tileset_FirstGID ts)) (Map_Tilesets m) ->
  decodeGID m gid = Ok t ->
  exists (i : nat) (ts : Tileset),
    DecodedTile_Tileset t = Some i /\
    Map_Tilesets m !! i = Some ts /\
    encodeGID (Tileset_FirstGID ts) t = gid /\
    0 <= DecodedTile_ID t < 2 ^ 29.
Proof.
  intros Hgid Hnz Hfirst. rewrite decodeGID_nonzero by exact Hnz.
  rewrite (ldiff_gidFlip gid Hgid). intros Hscan.
  apply decodeGID_scan_Ok_inv in Hscan.
  destruct Hscan as (i & ts & _ & Hts & Hle & _ & ->).
  exists i, ts. split; [reflexivity |]. split; [exact Hts |].
  rewrite Forall_lookup in Hfirst. specialize (Hfirst i ts Hts).
  pose proof (gidBare_range gid) as Hbare.
  assert (HID : u32_sub (gid mod 2 ^ 29) (Tileset_FirstGID ts)
                = gid mod 2 ^ 29 - Tileset_FirstGID ts).
  { unfold u32_sub. apply wrap_u32_small. unfold is_u32 in *. lia. }
  split.
  - unfold encodeGID, resolved. cbn [DecodedTile_ID DecodedTile_HorizontalFlip
      DecodedTile_VerticalFlip DecodedTile_DiagonalFlip].
    rewrite HID.
    change gidHorizontalFlip with (2 ^ 31). change gidVerticalFlip with (2 ^ 30).
    change gidDiagonalFlip with (2 ^ 29).
    rewrite !flag_testbit by lia.
    pose proof (u32_bits_sum gid Hgid). lia.
  - unfold resolved. cbn [DecodedTile_ID]. rewrite HID. unfold is_u32 in *. lia.
Qed.

Lemma decodeGID_reconstruct_witness :
  encodeGID 11 (resolved 0xA000000C 12 1 (sample_tileset 11)) = 0xA000000C.
Proof.
  destruct (decodeGID_reconstruct (sample_map 2 2 0 []) 0xA000000C
              (resolved 0xA000000C 12 1 (sample_tileset 11)))
    as (i & ts & Hi & Hts & Henc & _).
  - unfold is_u32; lia.
  - lia.
  - repeat constructor; simpl; lia.
  - reflexivity.
  - injection Hi as <-. injection Hts as <-. exact Henc.
Defined.

(** With the tilesets in ascending order of FirstGID, the owner of a GID is
    a tileset with the greatest FirstGID not above the bare GID, and a GID
    is invalid exactly when it lies below every tileset. *)
Theorem decodeGID_ascending (m : Map) (gid : Z) :
  is_u32 gid -> gid <> 0 -> ascending_FirstGID m ->
  (forall t, decodeGID m gid = Ok t ->
     exists (i : nat) (ts : Tileset),
       DecodedTile_Tileset t = Some i /\ Map_Tilesets m !! i = Some ts /\
       Tileset_FirstGID ts <= gid mod 2 ^ 29 /\
       forall ts', ts' ∈ Map_Tilesets m ->
         Tileset_FirstGID ts' <= gid mod 2 ^ 29 ->
         Tileset_FirstGID ts' <= Tileset_FirstGID ts) /\
  (decodeGID m gid = Err InvalidGIDError <->
   forall ts', ts' ∈ Map_Tilesets m -> gid mod 2 ^ 29 < Tileset_FirstGID ts').
Proof.
  intros Hgid Hnz Hasc. rewrite decodeGID_nonzero by exact Hnz.
  rewrite (ldiff_gidFlip gid Hgid). split.
  - intros t Hscan. apply decodeGID_scan_Ok_inv in Hscan.
    destruct Hscan as (i & ts & Hi & Hts & Hle & Hafter & ->).
    exists i, ts. repeat split; try done.
    intros ts' Hin Hle'. apply list_elem_of_lookup_1 in Hin. destruct Hin as (j & Hj).
    destruct (Nat.lt_trichotomy j i) as [Hlt | [-> | Hgt]].
    + by apply (Hasc j i).
    + rewrite Hts in Hj. injection Hj as <-. lia.
    + pose proof (Hafter j ts' Hgt ltac:(by apply lookup_lt_Some in Hj) Hj). lia.
  - split.
    + intros Herr ts' Hin.
      destruct (Z.lt_ge_cases (gid mod 2 ^ 29) (Tileset_FirstGID ts')) as [| Hge];
        [assumption |].
      exfalso. apply list_elem_of_lookup_1 in Hin. destruct Hin as (j & Hj).
      (* some tileset qualifies: take the last one *)
      assert (Hex : exists i ts, Map_Tilesets m !! i = Some ts /\
                Tileset_FirstGID ts <= gid mod 2 ^ 29 /\
                forall k ts'', (i < k)%nat -> Map_Tilesets m !! k = Some ts'' ->
                               gid mod 2 ^ 29 < Tileset_FirstGID ts'').
      { clear Herr. revert j ts' Hj Hge.
        induction (Map_Tilesets m) as [| a l IH] using rev_ind; intros j ts' Hj Hge.
        - discriminate.
        - destruct (Z.le_gt_cases (Tileset_FirstGID a) (gid mod 2 ^ 29)) as [Ha | Ha].
          + exists (length l), a. split; [by rewrite lookup_app_r, Nat.sub_diag |].
            split; [exact Ha |]. intros k ts'' Hk Hl.
            apply lookup_lt_Some in Hl. rewrite length_app in Hl. simpl in Hl. lia.
          + assert (Hjl : (j < length l)%nat).
            { pose proof (lookup_lt_Some _ _ _ Hj) as Hlt.
              rewrite length_app in Hlt. simpl in Hlt.
              destruct (decide (j = length l)) as [-> | ]; [| lia].
              rewrite lookup_app_r, Nat.sub_diag in Hj by lia.
              injection Hj as <-. lia. }
            rewrite lookup_app_l in Hj by exact Hjl.
            destruct (IH j ts' Hj Hge) as (i & ts & Hi & Hle & Hafter).
            exists i, ts. split.
            { rewrite lookup_app_l; [exact Hi | by apply lookup_lt_Some in Hi]. }
            split; [exact Hle |]. intros k ts'' Hk Hl.
            destruct (decide (k < length l)%nat) as [Hkl | Hkl].
            * rewrite lookup_app_l in Hl by exact Hkl. by apply (Hafter k).
            * pose proof (lookup_lt_Some _ _ _ Hl) as Hlt.
              rewrite length_app in Hlt. simpl in Hlt.
              replace k with (length l) in Hl by lia.
              rewrite lookup_app_r, Nat.sub_diag in Hl by lia.
              injection Hl as <-. exact Ha. }
      destruct Hex as (i & ts & Hi & Hle & Hafter).
      rewrite (decodeGID_scan_owner m gid (gid mod 2 ^ 29) _ i ts) in Herr;
        [discriminate | by apply lookup_lt_Some in Hi | exact Hi | exact Hle | | lia].
      intros k ts'' Hk _. by apply Hafter.
    + intros Hall. apply decodeGID_scan_none; [| lia].
      intros j ts _ Hj. apply Hall. by eapply list_elem_of_lookup_2.
Qed.

Lemma decodeGID_ascending_witness :
  decodeGID (sample_map 2 2 0 []) 0x80000000 = Err InvalidGIDError.
Proof.
  destruct (decodeGID_ascending (sample_map 2 2 0 []) 0x80000000) as (_ & Herr).
  - unfold is_u32; lia.
  - lia.
  - intros [| [| i]] [| [| j]] a b Hij Ha Hb; try lia; try discriminate.
    injection Ha as <-. injection Hb as <-. simpl. lia.
  - apply Herr. intros ts Hts. simpl in Hts. elem_cases Hts; reflexivity.
Defined.

(** ** [decodeCSV]: which texts decode *)

Lemma ParseUint_loop_Ok_value (s0 cs : string) (maxVal n v : Z) :
  0 <= n -> maxVal <= maxUint64 ->
  ParseUint_loop s0 cs maxVal n = Ok v ->
  v = dec_value cs n /\ (n <= maxVal -> v <= maxVal).
Proof.
  revert n. induction cs as [| c rest IH]; intros n Hn Hmax; simpl.
  - intros [= <-]. done.
  - destruct (is_digit c) eqn:Hc; [| discriminate].
    pose proof (is_digit_val c Hc) as Hd.
    unfold maxUint64 in *.
    change ((2 ^ 64 - 1) / 10 + 1) with 1844674407370955162.
    change (2 ^ 64) with 18446744073709551616 in *.
    destruct (Z.geb_spec n 1844674407370955162); [discriminate |].
    rewrite (Z.mod_small (n * 10)) by lia.
    set (d := byte_val c - byte_val "0") in *.
    destruct (Z.ltb_spec ((n * 10 + d) mod 18446744073709551616) (n * 10));
      [discriminate |].
    destruct (Z.gtb_spec ((n * 10 + d) mod 18446744073709551616) maxVal);
      [discriminate |].
    cbn [orb]. intros Hrun.
    assert (Hsmall : (n * 10 + d) mod 18446744073709551616 = n * 10 + d).
    { destruct (Z.lt_ge_cases (n * 10 + d) 18446744073709551616) as [Hlt | Hge].
      - apply Z.mod_small. lia.
      - exfalso.
        assert ((n * 10 + d) mod 18446744073709551616
                = n * 10 + d - 18446744073709551616).
        { symmetry. apply Z.mod_unique with 1; lia. }
        lia. }
    rewrite Hsmall in *. apply IH in Hrun; [| lia | lia].
    destruct Hrun as (-> & Hle). split; [reflexivity |]. intros _. apply Hle. lia.
Qed.

Lemma ParseUint_loop_Err_range (s0 cs : string) (maxVal n : Z) (e : error) :
  all_digits cs = true -> 0 <= n -> 0 <= maxVal <= maxUint64 ->
  ParseUint_loop s0 cs maxVal n = Err e ->
  e = rangeError "ParseUint" s0 /\ maxVal < dec_value cs n.
Proof.
  revert n. induction cs as [| c rest IH]; intros n Hd Hn Hmax; simpl; [discriminate |].
  simpl in Hd. apply andb_true_iff in Hd. destruct Hd as (Hc & Hrest).
  rewrite Hc. pose proof (is_digit_val c Hc) as Hdig.
  set (d := byte_val c - byte_val "0") in *.
  pose proof (dec_value_ge rest (n * 10 + d) Hrest ltac:(lia)) as Hge.
  unfold maxUint64 in *.
  change ((2 ^ 64 - 1) / 10 + 1) with 1844674407370955162.
  change (2 ^ 64) with 18446744073709551616 in *.
  destruct (Z.geb_spec n 1844674407370955162).
  { intros [= <-]. split; [reflexivity | lia]. }
  rewrite (Z.mod_small (n * 10)) by lia.
  destruct (Z.lt_ge_cases (n * 10 + d) 18446744073709551616) as [Hlt | Hbig].
  - rewrite (Z.mod_small (n * 10 + d)) by lia.
    destruct (Z.ltb_spec (n * 10 + d) (n * 10)); [lia |].
    destruct (Z.gtb_spec (n * 10 + d) maxVal); cbn [orb].
    + intros [= <-]. split; [reflexivity | lia].
    + apply IH; [exact Hrest | lia | lia].
  - assert (Hm : (n * 10 + d) mod 18446744073709551616
                 = n * 10 + d - 18446744073709551616).
    { symmetry. apply Z.mod_unique with 1; lia. }
    rewrite Hm.
    destruct (Z.ltb_spec (n * 10 + d - 18446744073709551616) (n * 10)); [| lia].
    cbn [orb]. intros [= <-]. split; [reflexivity | lia].
Qed.

(** [ParseUint] with 32 bits on digits. *)
Lemma ParseUint_32_digits (token : string) :
  all_digits token = true ->
  (forall gid, ParseUint token 32 = Ok gid <-> csv_token token gid) /\
  (forall e, ParseUint token 32 = Err e ->
     (token = "" /\ e = syntaxError "ParseUint" token) \/
     (token <> "" /\ 2 ^ 32 - 1 < dec_value token 0 /\
      e = rangeError "ParseUint" token)) /\
  ParseUint token 32 <> Panic.
Proof.
  intros Hd. unfold ParseUint, csv_token.
  destruct token as [| c rest].
  { split; [| split; [| discriminate]].
    - intros gid. split; [discriminate | by intros (? & _)].
    - intros e [= <-]. by left. }
  change (if 32 =? 0 then 64 else 32) with 32.
  set (token := String c rest) in *.
  split; [| split].
  - intros gid. split.
    + intros Hrun.
      apply ParseUint_loop_Ok_value in Hrun; [| lia | unfold maxUint64; lia].
      destruct Hrun as (-> & Hle). split; [discriminate |]. split; [reflexivity | lia].
    + intros (_ & <- & Hle).
      apply ParseUint_loop_value; [exact Hd | lia | unfold maxUint64; lia | lia].
  - intros e Hrun. right.
    apply ParseUint_loop_Err_range in Hrun; [| exact Hd | lia | unfold maxUint64; lia].
    destruct Hrun as (-> & Hgt). split; [discriminate |]. split; [lia | reflexivity].
  - pose proof (ParseUint_loop_cases token token (2 ^ 32 - 1) 0) as H.
    intros Hp. by rewrite Hp in H.
Qed.

(** The text that [decodeCSV] splits holds digits and commas only. *)
Lemma strings_Split_cleaner (s : string) :
  Forall (fun token => all_digits token = true)
    (strings_Split (strings_Map cleaner s) ",").
Proof.
  induction s as [| c rest IH]; [by repeat constructor |].
  cbn [strings_Map]. unfold cleaner at 1.
  destruct (is_digit c) eqn:Hc; cbn [orb].
  - cbn [strings_Split].
    destruct (Ascii.eqb_spec c ","%char) as [-> | _]; [discriminate |].
    destruct (strings_Split (strings_Map cleaner rest) ",") as [| piece pieces];
      [by repeat constructor; simpl; rewrite Hc |].
    inversion IH; subst. constructor; [simpl; by rewrite Hc | assumption].
  - destruct (Ascii.eqb_spec c ","%char) as [-> | _]; [| exact IH].
    cbn [strings_Split]. by constructor.
Qed.

Lemma decodeCSV_loop_Ok (str : list string) (gids : list Z) :
  Forall (fun token => all_digits token = true) str ->
  decodeCSV_loop str = Ok gids <-> Forall2 csv_token str gids.
Proof.
  intros Hd. revert gids. induction Hd as [| token rest Htoken _ IH]; intros gids.
  - simpl. split; [intros [= <-]; constructor | by inversion 1].
  - destruct (ParseUint_32_digits token Htoken) as (Hok & _ & _).
    cbn [decodeCSV_loop]. split.
    + destruct (ParseUint token 32) as [v | |] eqn:Hv; try discriminate. cbn [bind].
      destruct (decodeCSV_loop rest) as [gids' | |]; try discriminate. cbn [bind].
      intros [= <-]. rewrite wrap_u32_small by (by apply ParseUint_32_range in Hv).
      constructor; [by apply Hok | by apply IH].
    + inversion 1 as [| ? gid ? gids' Htok Hrest]; subst.
      pose proof Htok as Hrun. apply Hok in Hrun. rewrite Hrun. cbn [bind].
      apply IH in Hrest. rewrite Hrest. cbn [bind].
      rewrite wrap_u32_small by (by apply ParseUint_32_range in Hrun). reflexivity.
Qed.

Lemma decodeCSV_loop_Err (str : list string) :
  Forall (fun token => all_digits token = true) str ->
  decodeCSV_loop str <> Panic /\
  forall e, decodeCSV_loop str = Err e ->
    exists token,
      token ∈ str /\
      ((token = "" /\ e = syntaxError "ParseUint" token) \/
       (token <> "" /\ 2 ^ 32 - 1 < dec_value token 0 /\
        e = rangeError "ParseUint" token)).
Proof.
  induction 1 as [| token rest Htoken _ IH]; [split; [discriminate | discriminate] |].
  destruct (ParseUint_32_digits token Htoken) as (_ & Herr & Hpanic).
  destruct IH as (IHp & IHe). cbn [decodeCSV_loop].
  destruct (ParseUint token 32) as [v | e0 |]; [| | contradiction]; cbn [bind].
  - destruct (decodeCSV_loop rest) as [gids | e1 |]; [| | contradiction]; cbn [bind].
    + split; discriminate.
    + split; [discriminate |]. intros e [= <-].
      destruct (IHe e1 eq_refl) as (tok & Hin & Hcase).
      exists tok. split; [by apply list_elem_of_further | exact Hcase].
  - split; [discriminate |]. intros e [= <-].
    exists token. split; [apply list_elem_of_here | by apply Herr].
Qed.

(** [decodeCSV] returns GIDs exactly when every token between the commas
    of the cleaned text is a run of digits, not empty, that denotes a
    number of at most 32 bits; the GIDs are these numbers, leading zeroes
    and all.  Otherwise it fails, without a panic, on an empty token with a
    syntax error or on a number above [2 ^ 32 - 1] with a range error. *)
Theorem decodeCSV_tokens (d : Data) :
  (forall gids, decodeCSV d = Ok gids <-> Forall2 csv_token (csv_tokens d) gids) /\
  decodeCSV d <> Panic /\
  (forall e, decodeCSV d = Err e ->
     exists token,
       token ∈ csv_tokens d /\
       ((token = "" /\ e = syntaxError "ParseUint" token) \/
        (token <> "" /\ 2 ^ 32 - 1 < dec_value token 0 /\
         e = rangeError "ParseUint" token))).
Proof.
  unfold decodeCSV, csv_tokens.
  pose proof (strings_Split_cleaner (Data_RawData d)) as Hd.
  split; [intros gids; by apply decodeCSV_loop_Ok |].
  by apply decodeCSV_loop_Err.
Qed.

Lemma decodeCSV_tokens_witness :
  decodeCSV (Layer_Data (sample_layer "csv" "" "007, -12" [])) = Ok [7; 12].
Proof.
  destruct (decodeCSV_tokens (Layer_Data (sample_layer "csv" "" "007, -12" [])))
    as (Hok & _).
  apply Hok. repeat constructor; try discriminate; vm_compute; discriminate.
Defined.

(** [decodeCSV] never returns an empty sequence, so a CSV layer of a map
    with [width * height = 0] does not decode. *)
Theorem decodeLayerCSV_not_empty (l : Layer) (width height : Z) (gids : list Z) :
  decodeLayerCSV l width height = Ok gids ->
  gids <> [] /\ 1 <= int_mul width height.
Proof.
  intros Hrun. apply decodeLayerCSV_Ok in Hrun. destruct Hrun as (Hlen & Hcsv).
  assert (Hne : gids <> []).
  { unfold decodeCSV in Hcsv.
    destruct (strings_Split (strings_Map cleaner (Data_RawData (Layer_Data l))) ",")
      as [| token rest] eqn:Hsplit.
    - exfalso. clear -Hsplit.
      destruct (strings_Map cleaner (Data_RawData (Layer_Data l))) as [| c s];
        [discriminate |].
      cbn [strings_Split] in Hsplit.
      destruct (Ascii.eqb c ","); [discriminate |].
      destruct (strings_Split s ","); discriminate.
    - cbn [decodeCSV_loop] in Hcsv.
      destruct (ParseUint token 32); try discriminate. cbn [bind] in Hcsv.
      destruct (decodeCSV_loop rest); try discriminate. cbn [bind] in Hcsv.
      injection Hcsv as <-. discriminate. }
  split; [exact Hne |]. destruct gids; [contradiction | simpl in Hlen; lia].
Qed.

Lemma decodeLayerCSV_not_empty_witness :
  decodeLayerCSV sample_csv_layer 2 2 = Ok [1; 2147483650; 259; 4294967295] /\
  [1; 2147483650; 259; 4294967295] <> [] /\ 1 <= int_mul 2 2.
Proof.
  assert (Hrun : decodeLayerCSV sample_csv_layer 2 2 =
                 Ok [1; 2147483650; 259; 4294967295]) by reflexivity.
  split; [exact Hrun |].
  exact (decodeLayerCSV_not_empty sample_csv_layer 2 2 _ Hrun).
Defined.

(** ** [decodeLayerBase64]: round trip, degenerate dimensions, overflow *)

Lemma for_range_no_Err {S : Type} (body : Z -> S -> result S) (n : nat) (start : Z)
  (s : S) (e : error) :
  (forall i s' e', body i s' <> Err e') -> for_range start n body s <> Err e.
Proof.
  intros Hbody. revert start s. induction n as [| n IH]; intros start s;
    cbn [for_range]; [discriminate |].
  destruct (body start s) as [s' | e' |] eqn:Hb; cbn [bind];
    [apply IH | by apply Hbody in Hb | discriminate].
Qed.

Lemma decodeLayerBase64_cell_no_Err (dataBytes : list byte) (width y x : Z)
  (st : Z * list Z) (e : error) :
  decodeLayerBase64_cell dataBytes width y x st <> Err e.
Proof.
  destruct st as [j gids]. unfold decodeLayerBase64_cell, byte_at, store_GID.
  repeat match goal with
         | |- context [if ?c then _ else _] => destruct c; cbn [bind]; try discriminate
         | |- context [match ?l !! ?i with _ => _ end] =>
             destruct (l !! i); cbn [bind]; try discriminate
         end.
Qed.

(** The only error of the decoder is that of the length check. *)
Lemma decodeLayerBase64_bytes_Err (dataBytes : list byte) (width height : Z)
  (e : error) :
  decodeLayerBase64_bytes dataBytes width height = Err e ->
  e = InvalidDecodedDataLenError /\
  Z.of_nat (length dataBytes) <> int_mul (int_mul width height) 4.
Proof.
  unfold decodeLayerBase64_bytes.
  destruct (Z.eqb_spec (Z.of_nat (length dataBytes)) (int_mul (int_mul width height) 4))
    as [Hlen | Hlen]; cbn [negb].
  - unfold make_GIDs. destruct ((_ <? 0) || _); cbn [bind]; [discriminate |].
    destruct (for_range 0 (Z.to_nat height) _ _) as [st | e' |] eqn:Hrun;
      cbn [bind]; [discriminate | | discriminate].
    exfalso. revert Hrun. apply for_range_no_Err.
    intros y st e''. apply for_range_no_Err. intros x st' e3.
    apply decodeLayerBase64_cell_no_Err.
  - by intros [= <-].
Qed.

Section Base64Properties.

Variable bytes_TrimSpace : string -> string.
Variable base64_decode : string -> result (list byte).
Variable gzip_inflate : string -> result (list byte).
Variable zlib_inflate : string -> result (list byte).

Local Abbreviation decodeBase64' :=
  (decodeBase64 bytes_TrimSpace base64_decode gzip_inflate zlib_inflate).
Local Abbreviation decodeLayerBase64' :=
  (decodeLayerBase64 bytes_TrimSpace base64_decode gzip_inflate zlib_inflate).

(** Round trip of the binary format: when the payload of a layer, with or
    without compression, unpacks to the little-endian bytes of a grid of
    [width] by [height] GIDs, the layer decodes to these GIDs; this holds
    for the grid without cells too. *)
Theorem decodeLayerBase64_le_bytes (l : Layer) (gids : list Z) (width height : Z) :
  0 <= width -> 0 <= height ->
  Z.of_nat (length gids) = width * height ->
  Forall is_u32 gids ->
  4 * (width * height) <= maxAlloc ->
  decodeBase64' (Layer_Data l) = Ok (le_bytes gids) ->
  decodeLayerBase64' l width height = Ok gids.
Proof.
  intros Hw Hh Hlen Hgids Halloc Hdec. unfold decodeLayerBase64.
  rewrite Hdec. cbn [bind].
  destruct (decide (0 < width /\ 0 < height)) as [[Hw' Hh'] | Hdeg].
  - by apply decodeLayerBase64_bytes_le_bytes.
  - assert (Hz : width * height = 0) by nia.
    rewrite decodeLayerBase64_bytes_degenerate;
      [| lia | rewrite length_le_bytes; lia | rewrite length_le_bytes; lia].
    rewrite Hz. destruct gids; [reflexivity | simpl in Hlen; lia].
Qed.

(** With a negative width and a negative height the length check compares
    with their positive product, and the loops do not run: whatever the
    bytes hold, the layer decodes to [width * height] zeroes. *)
Theorem decodeLayerBase64_negative (l : Layer) (dataBytes : list byte)
  (width height : Z) :
  width < 0 -> height < 0 ->
  decodeBase64' (Layer_Data l) = Ok dataBytes ->
  Z.of_nat (length dataBytes) = 4 * (width * height) ->
  Z.of_nat (length dataBytes) <= maxAlloc ->
  decodeLayerBase64' l width height = Ok (replicate (Z.to_nat (width * height)) 0) /\
  0 < width * height.
Proof.
  intros Hw Hh Hdec Hlen Halloc. split; [| nia].
  unfold decodeLayerBase64. rewrite Hdec. cbn [bind].
  apply decodeLayerBase64_bytes_degenerate; [lia | exact Hlen | exact Halloc].
Qed.


End Base64Properties.

Lemma decodeLayerBase64_le_bytes_witness :
  le_bytes [1; 2147483650; 259; 4294967295]
  = [x01; x00; x00; x00; x02; x00; x00; x80;
     x03; x01; x00; x00; xff; xff; xff; xff] /\
  decodeLayerBase64 plain_TrimSpace base64_std no_inflate no_inflate
    sample_base64_layer 2 2 = Ok [1; 2147483650; 259; 4294967295] /\
  decodeLayerBase64 plain_TrimSpace base64_std no_inflate no_inflate
    (sample_layer "base64" "" "" []) 0 3 = Ok [].
Proof.
  split; [reflexivity |]. split.
  - apply (decodeLayerBase64_le_bytes plain_TrimSpace base64_std no_inflate no_inflate
             sample_base64_layer [1; 2147483650; 259; 4294967295] 2 2).
    + lia.
    + lia.
    + reflexivity.
    + repeat constructor; lia.
    + vm_compute. discriminate.
    + reflexivity.
  - apply (decodeLayerBase64_le_bytes plain_TrimSpace base64_std no_inflate no_inflate
             (sample_layer "base64" "" "" []) [] 0 3).
    + lia.
    + lia.
    + reflexivity.
    + constructor.
    + vm_compute. discriminate.
    + reflexivity.
Defined.

Lemma decodeLayerBase64_negative_witness :
  decodeLayerBase64 plain_TrimSpace base64_std no_inflate no_inflate
    sample_base64_layer (-2) (-2) = Ok [0; 0; 0; 0].
Proof.
  destruct (decodeLayerBase64_negative plain_TrimSpace base64_std no_inflate no_inflate
              sample_base64_layer
              [x01; x00; x00; x00; x02; x00; x00; x80;
               x03; x01; x00; x00; xff; xff; xff; xff] (-2) (-2)) as (H & _).
  - lia.
  - lia.
  - reflexivity.
  - reflexivity.
  - vm_compute. discriminate.
  - exact H.
Defined.


(** ** [decodeLayers] and [Read]: what a load returns and when it fails *)

Lemma decodeGIDs_Ok (m : Map) (gids : list Z) (tiles : list DecodedTile) :
  decodeGIDs m gids = Ok tiles <->
  Forall2 (fun gid t => decodeGID m gid = Ok t) gids tiles.
Proof.
  revert tiles. induction gids as [| gid rest IH]; intros tiles; simpl.
  - split; [intros [= <-]; constructor | by inversion 1].
  - split.
    + destruct (decodeGID m gid) as [t | |] eqn:Ht; try discriminate. cbn [bind].
      destruct (decodeGIDs m rest) as [tiles' | |]; try discriminate. cbn [bind].
      intros [= <-]. constructor; [exact Ht | by apply IH].
    + inversion 1 as [| ? t ? tiles' Ht Hrest]; subst.
      rewrite Ht. cbn [bind]. apply IH in Hrest. by rewrite Hrest.
Qed.

(** The resolution of a sequence fails as soon as one GID is invalid. *)
Lemma decodeGIDs_Err (m : Map) (gids : list Z) :
  Exists (fun gid => decodeGID m gid = Err InvalidGIDError) gids ->
  decodeGIDs m gids = Err InvalidGIDError.
Proof.
  induction gids as [| gid rest IH]; intros Hex; [by inversion Hex |].
  simpl. inversion Hex as [? ? Hbad | ? ? Hrest]; subst.
  - by rewrite Hbad.
  - destruct (decodeGID_cases m gid) as [(t & ->) | ->]; [| reflexivity].
    cbn [bind]. by rewrite IH.
Qed.

Lemma decodeGIDs_no_Panic (m : Map) (gids : list Z) : decodeGIDs m gids <> Panic.
Proof.
  induction gids as [| gid rest IH]; simpl; [discriminate |].
  destruct (decodeGID_cases m gid) as [(t & ->) | ->]; [| discriminate].
  cbn [bind]. destruct (decodeGIDs m rest); [discriminate | discriminate | contradiction].
Qed.

Lemma Read_layer_fields (l : Layer) :
  Layer_Name (Read_layer l) = Layer_Name l /\
  Layer_Data (Read_layer l) = Layer_Data l.
Proof.
  unfold Read_layer. destruct (getTileset l) as [[ts e] multi].
  destruct multi; by split.
Qed.

Section LoadProperties.

Variable bytes_TrimSpace : string -> string.
Variable base64_decode : string -> result (list byte).
Variable gzip_inflate : string -> result (list byte).
Variable zlib_inflate : string -> result (list byte).
Variable xml_Decode : string -> result Map.

Local Abbreviation Layer_decode' :=
  (Layer_decode bytes_TrimSpace base64_decode gzip_inflate zlib_inflate).
Local Abbreviation decodeLayers_loop' :=
  (decodeLayers_loop bytes_TrimSpace base64_decode gzip_inflate zlib_inflate).
Local Abbreviation Read' :=
  (Read bytes_TrimSpace base64_decode gzip_inflate zlib_inflate xml_Decode).

Lemma Layer_decode_length (l : Layer) (width height : Z) (gids : list Z) :
  Layer_decode' l width height = Ok gids ->
  Z.of_nat (length gids) = int_mul width height.
Proof.
  unfold Layer_decode.
  destruct (String.eqb _ "csv"); [intros H; apply decodeLayerCSV_Ok in H; apply H |].
  destruct (String.eqb _ "base64").
  { intros H. apply decodeLayerBase64_Ok in H.
    destruct H as (? & _ & _ & H & _). exact H. }
  destruct (String.eqb _ ""); [intros H; apply decodeLayerXML_Ok in H; apply H |].
  discriminate.
Qed.

Lemma decodeLayers_loop_Ok_inv (m : Map) (layers layers' : list Layer) :
  decodeLayers_loop' m layers = Ok layers' ->
  Forall2 (fun l l' =>
             exists gids tiles,
               Layer_decode' l (Map_Width m) (Map_Height m) = Ok gids /\
               decodeGIDs m gids = Ok tiles /\
               l' = Layer_with_DecodedTiles l tiles) layers layers'.
Proof.
  revert layers'. induction layers as [| l rest IH]; intros layers' H; simpl in H.
  - injection H as <-. constructor.
  - destruct (Layer_decode' l (Map_Width m) (Map_Height m)) as [gids | |] eqn:Hd;
      simpl in H; try discriminate.
    destruct (decodeGIDs m gids) as [tiles | |] eqn:Ht; simpl in H; try discriminate.
    destruct (decodeLayers_loop' m rest) as [rest' | |]; simpl in H; try discriminate.
    injection H as <-. constructor; [by exists gids, tiles | by apply IH].
Qed.

(** After a successful [Read] the map has the tilesets, the dimensions and
    the layers of the parsed document, in their order; each layer has its
    name and data, and one decoded tile for each GID of its payload, in
    the order of the GIDs: [width * height] tiles, the tile at index [k]
    being the resolution of GID [k]. *)
Theorem Read_Ok_layers (r : string) (m0 m : Map) :
  xml_Decode r = Ok m0 -> Read' r = Ok m ->
  Map_Tilesets m = Map_Tilesets m0 /\
  Map_Width m = Map_Width m0 /\ Map_Height m = Map_Height m0 /\
  Forall2 (fun l0 l =>
             Layer_Name l = Layer_Name l0 /\ Layer_Data l = Layer_Data l0 /\
             Z.of_nat (length (Layer_DecodedTiles l))
             = int_mul (Map_Width m0) (Map_Height m0) /\
             exists gids,
               Layer_decode' l0 (Map_Width m0) (Map_Height m0) = Ok gids /\
               Forall2 (fun gid t => decodeGID m0 gid = Ok t) gids
                 (Layer_DecodedTiles l))
          (Map_Layers m0) (Map_Layers m).
Proof.
  intros Hdec Hread.
  destruct (Read_Ok_inv _ _ _ _ _ r m Hread) as (m0' & layers & Hdec' & _ & Hloop & ->).
  rewrite Hdec in Hdec'. injection Hdec' as <-.
  split; [reflexivity |]. split; [reflexivity |]. split; [reflexivity |].
  cbn [Map_with_Layers Map_Layers].
  apply decodeLayers_loop_Ok_inv in Hloop.
  change (map Read_layer layers) with (Read_layer <$> layers).
  rewrite Forall2_fmap_r.
  eapply Forall2_impl; [exact Hloop |].
  intros l0 l1 (gids & tiles & Hgids & Htiles & ->). unfold compose. cbv beta.
  destruct (Read_layer_fields (Layer_with_DecodedTiles l0 tiles)) as (-> & ->).
  rewrite Read_layer_DecodedTiles. cbn [Layer_with_DecodedTiles Layer_Name Layer_Data
    Layer_DecodedTiles].
  apply decodeGIDs_Ok in Htiles.
  split; [reflexivity |]. split; [reflexivity |]. split.
  - rewrite <- (Forall2_length _ _ _ Htiles).
    exact (Layer_decode_length l0 _ _ _ Hgids).
  - by exists gids.
Qed.

(** One layer that does not decode, or one GID that no tileset owns, fails
    the whole load with the error of the first such layer. *)
Theorem Read_first_failure (r : string) (m0 : Map) (before after : list Layer)
  (l : Layer) :
  xml_Decode r = Ok m0 -> Map_Infinite m0 <> 1 ->
  Map_Layers m0 = (before ++ l :: after)%list ->
  Forall (fun l' =>
            exists gids tiles,
              Layer_decode' l' (Map_Width m0) (Map_Height m0) = Ok gids /\
              decodeGIDs m0 gids = Ok tiles) before ->
  (forall e, Layer_decode' l (Map_Width m0) (Map_Height m0) = Err e ->
             Read' r = Err e) /\
  (forall gids, Layer_decode' l (Map_Width m0) (Map_Height m0) = Ok gids ->
     Exists (fun gid => decodeGID m0 gid = Err InvalidGIDError) gids ->
     Read' r = Err InvalidGIDError).
Proof.
  intros Hdec Hinf Hlayers Hbefore.
  assert (Hloop : forall e,
             (let* gids := Layer_decode' l (Map_Width m0) (Map_Height m0) in
              decodeGIDs m0 gids) = Err e ->
             decodeLayers_loop' m0 (before ++ l :: after)%list = Err e).
  { intros e He. clear Hlayers.
    induction Hbefore as [| l' rest (gids & tiles & Hg & Ht) _ IH].
    - cbn [app decodeLayers_loop].
      destruct (Layer_decode' l (Map_Width m0) (Map_Height m0)) as [gids | e' |];
        cbn [bind] in *; [| by injection He as -> | discriminate].
      rewrite He. reflexivity.
    - cbn [app decodeLayers_loop]. rewrite Hg. cbn [bind]. rewrite Ht. cbn [bind].
      rewrite IH. reflexivity. }
  assert (Hread : forall e,
             (let* gids := Layer_decode' l (Map_Width m0) (Map_Height m0) in
              decodeGIDs m0 gids) = Err e -> Read' r = Err e).
  { intros e He. unfold Read, decodeLayers. rewrite Hdec. cbn [bind].
    destruct (Z.eqb_spec (Map_Infinite m0) 1); [contradiction |].
    rewrite Hlayers, (Hloop e He). reflexivity. }
  split.
  - intros e He. apply Hread. by rewrite He.
  - intros gids Hg Hex. apply Hread. rewrite Hg. cbn [bind]. by apply decodeGIDs_Err.
Qed.

End LoadProperties.

(** A tile that [decodeGID] returns is the nil tile or has a tileset. *)
Lemma decodeGID_has_Tileset (m : Map) (gid : Z) (t : DecodedTile) :
  decodeGID m gid = Ok t -> DecodedTile_Nil t = false ->
  exists i, DecodedTile_Tileset t = Some i.
Proof.
  unfold decodeGID. destruct (gid =? 0); [by intros [= <-] |].
  intros Hscan _. apply decodeGID_scan_Ok_inv in Hscan.
  destruct Hscan as (i & ts & _ & _ & _ & _ & ->). by exists i.
Qed.

(** The three ways [getTileset] ends on tiles that are nil or have a
    tileset. *)
Lemma getTileset_scan_resolved (tiles : list DecodedTile) :
  (forall t, t ∈ tiles -> DecodedTile_Nil t = false ->
             exists i, DecodedTile_Tileset t = Some i) ->
  (getTileset_scan tiles None = (None, true, false) /\
   forall t, t ∈ tiles -> DecodedTile_Nil t = true) \/
  (exists A, getTileset_scan tiles None = (Some A, false, false) /\
             (exists t, t ∈ tiles /\ DecodedTile_Nil t = false) /\
             forall t, t ∈ tiles -> DecodedTile_Nil t = false ->
                       DecodedTile_Tileset t = Some A) \/
  (exists ts t1 t2, getTileset_scan tiles None = (ts, false, true) /\
                    t1 ∈ tiles /\ t2 ∈ tiles /\
                    DecodedTile_Nil t1 = false /\ DecodedTile_Nil t2 = false /\
                    DecodedTile_Tileset t1 <> DecodedTile_Tileset t2).
Proof.
  intros Hwf.
  destruct (decide (Forall (fun t => DecodedTile_Nil t = true) tiles)) as [Hnil | Hnot].
  { left. rewrite Forall_forall in Hnil. split; [| exact Hnil].
    by apply getTileset_scan_all_nil. }
  right. apply not_Forall_Exists in Hnot; [| apply _].
  apply Exists_exists in Hnot. destruct Hnot as (t1 & Hin1 & Hn1).
  unfold compose in Hn1. cbv beta in Hn1. apply not_true_is_false in Hn1.
  destruct (Hwf t1 Hin1 Hn1) as (A & HA).
  destruct (decide (Forall (fun t => DecodedTile_Nil t = false ->
                                     DecodedTile_Tileset t = Some A) tiles))
    as [Hall | Hsome].
  - left. exists A. rewrite Forall_forall in Hall.
    split; [| split; [by exists t1 | exact Hall]].
    apply getTileset_scan_single; [exact Hall |].
    right. split; [reflexivity | by exists t1].
  - right. apply not_Forall_Exists in Hsome; [| apply _].
    apply Exists_exists in Hsome. destruct Hsome as (t2 & Hin2 & Hn2).
    unfold compose in Hn2. cbv beta in Hn2.
    destruct (DecodedTile_Nil t2) eqn:Hnil2; [exfalso; apply Hn2; discriminate |].
    destruct (Hwf t2 Hin2 Hnil2) as (B & HB).
    assert (HAB : A <> B). { intros ->. by apply Hn2. }
    destruct (getTileset_scan_multiple tiles t1 t2 A B Hin1 Hin2 Hn1 Hnil2 HA HB HAB)
      as (ts & Hts).
    exists ts, t1, t2. repeat split; try done. congruence.
Qed.

Lemma decodeLayerBase64_bytes_no_Panic (dataBytes : list byte) (width height : Z) :
  0 <= width -> 0 <= height -> 4 * (width * height) <= maxAlloc ->
  decodeLayerBase64_bytes dataBytes width height <> Panic.
Proof.
  intros Hw Hh Halloc Hpanic.
  assert (Hlen : Z.of_nat (length dataBytes) = 4 * (width * height)).
  { unfold decodeLayerBase64_bytes in Hpanic.
    destruct (Z.eqb_spec (Z.of_nat (length dataBytes))
                (int_mul (int_mul width height) 4)) as [Hlen |]; [| discriminate].
    rewrite Hlen. unfold int_mul.
    rewrite (wrap_int_small (width * height)) by (apply maxAlloc_is_int; nia).
    rewrite wrap_int_small by (apply maxAlloc_is_int; nia). lia. }
  destruct (decide (0 < width /\ 0 < height)) as [[Hw' Hh'] | Hdeg].
  - destruct (decodeLayerBase64_bytes_exact dataBytes width height)
      as (gids & Hrun & _); try assumption; try lia. congruence.
  - rewrite decodeLayerBase64_bytes_degenerate in Hpanic;
      [discriminate | lia | exact Hlen | lia].
Qed.

Lemma decodeCSV_no_Panic (d : Data) : decodeCSV d <> Panic.
Proof.
  unfold decodeCSV. apply decodeCSV_loop_Err, strings_Split_cleaner.
Qed.

Section LoadInvariants.

Variable bytes_TrimSpace : string -> string.
Variable base64_decode : string -> result (list byte).
Variable gzip_inflate : string -> result (list byte).
Variable zlib_inflate : string -> result (list byte).
Variable xml_Decode : string -> result Map.

Local Abbreviation Layer_decode' :=
  (Layer_decode bytes_TrimSpace base64_decode gzip_inflate zlib_inflate).
Local Abbreviation decodeLayers_loop' :=
  (decodeLayers_loop bytes_TrimSpace base64_decode gzip_inflate zlib_inflate).
Local Abbreviation Read' :=
  (Read bytes_TrimSpace base64_decode gzip_inflate zlib_inflate xml_Decode).

(** After a successful [Read] of a document whose layers the parse left
    without [Tileset] and not [Empty]: a layer is [Empty] exactly when all
    its tiles are nil, and its [Tileset] is [A] exactly when it has a tile
    that is not nil and all such tiles belong to [A]; an [Empty] layer has
    no [Tileset]. *)
Theorem Read_Empty_Tileset (r : string) (m0 m : Map) (l : Layer) :
  xml_Decode r = Ok m0 ->
  Forall (fun l0 => Layer_Tileset l0 = None /\ Layer_Empty l0 = false)
    (Map_Layers m0) ->
  Read' r = Ok m -> l ∈ Map_Layers m ->
  (Layer_Empty l = true <->
   forall t, t ∈ Layer_DecodedTiles l -> IsNil t = true) /\
  (forall A, Layer_Tileset l = Some A <->
     (exists t, t ∈ Layer_DecodedTiles l /\ IsNil t = false) /\
     forall t, t ∈ Layer_DecodedTiles l -> IsNil t = false ->
               DecodedTile_Tileset t = Some A) /\
  (Layer_Empty l = true -> Layer_Tileset l = None).
Proof.
  intros Hdec Hfresh Hread Hl.
  destruct (Read_Ok_inv _ _ _ _ _ r m Hread) as (m0' & layers & Hdec' & _ & Hloop & ->).
  rewrite Hdec in Hdec'. injection Hdec' as <-.
  cbn [Map_with_Layers Map_Layers] in Hl.
  change (map Read_layer layers) with (Read_layer <$> layers) in Hl.
  apply list_elem_of_fmap in Hl. destruct Hl as (l1 & -> & Hl1).
  apply decodeLayers_loop_Ok_inv in Hloop.
  apply list_elem_of_lookup_1 in Hl1. destruct Hl1 as (k & Hk).
  destruct (Forall2_lookup_r _ _ _ _ _ Hloop Hk)
    as (l0 & Hk0 & gids & tiles & _ & Htiles & ->).
  rewrite Forall_lookup in Hfresh. destruct (Hfresh k l0 Hk0) as (Hts0 & He0).
  apply decodeGIDs_Ok in Htiles.
  assert (Hwf : forall t, t ∈ tiles -> DecodedTile_Nil t = false ->
                          exists i, DecodedTile_Tileset t = Some i).
  { intros t Ht. apply list_elem_of_lookup_1 in Ht. destruct Ht as (j & Hj).
    destruct (Forall2_lookup_r _ _ _ _ _ Htiles Hj) as (gid & _ & Hgid).
    by apply (decodeGID_has_Tileset m0 gid). }
  rewrite Read_layer_DecodedTiles. unfold Read_layer, getTileset, IsNil.
  cbn [Layer_with_DecodedTiles Layer_DecodedTiles].
  destruct (getTileset_scan_resolved tiles Hwf)
    as [(-> & Hnil) | [(A & -> & (t1 & Hin1 & Hn1) & HA)
                      | (ts & t1 & t2 & -> & Hin1 & Hin2 & Hn1 & Hn2 & Hne)]];
    cbn [Layer_with_Empty_Tileset Layer_with_DecodedTiles Layer_Empty Layer_Tileset].
  - split; [done |]. split; [| done].
    intros A. split; [discriminate |].
    intros ((t & Hin & Hn) & _). rewrite (Hnil t Hin) in Hn. discriminate.
  - split; [| split; [| discriminate]].
    + split; [discriminate |]. intros Hall. rewrite (Hall t1 Hin1) in Hn1. discriminate.
    + intros B. split.
      * intros [= <-]. split; [by exists t1 | exact HA].
      * intros (_ & HB). specialize (HB t1 Hin1 Hn1). rewrite (HA t1 Hin1 Hn1) in HB.
        exact HB.
  - rewrite Hts0, He0. split; [| split; [| discriminate]].
    + split; [discriminate |]. intros Hall. rewrite (Hall t1 Hin1) in Hn1. discriminate.
    + intros A. split; [discriminate |]. intros (_ & HA). exfalso. apply Hne.
      by rewrite (HA t1 Hin1 Hn1), (HA t2 Hin2 Hn2).
Qed.

Lemma Layer_decode_no_Panic (l : Layer) (width height : Z) :
  (forall s, base64_decode s <> Panic) ->
  (forall s, gzip_inflate s <> Panic) -> (forall s, zlib_inflate s <> Panic) ->
  0 <= width -> 0 <= height -> 4 * (width * height) <= maxAlloc ->
  Layer_decode' l width height <> Panic.
Proof.
  intros Hb64 Hgz Hzl Hw Hh Halloc. unfold Layer_decode.
  destruct (String.eqb _ "csv").
  { unfold decodeLayerCSV. pose proof (decodeCSV_no_Panic (Layer_Data l)) as Hp.
    destruct (decodeCSV (Layer_Data l)); cbn [bind]; [| discriminate | contradiction].
    destruct (negb _); discriminate. }
  destruct (String.eqb _ "base64").
  { unfold decodeLayerBase64, decodeBase64.
    set (raw := bytes_TrimSpace (Data_RawData (Layer_Data l))).
    assert (Hdec : forall r : result (list byte), r <> Panic ->
              (let* dataBytes := r in decodeLayerBase64_bytes dataBytes width height)
              <> Panic).
    { intros [dataBytes | e |] Hr; cbn [bind]; [| discriminate | contradiction].
      by apply decodeLayerBase64_bytes_no_Panic. }
    destruct (String.eqb _ "gzip"); [apply Hdec, Hgz |].
    destruct (String.eqb _ "zlib"); [apply Hdec, Hzl |].
    destruct (String.eqb _ ""); [apply Hdec, Hb64 | discriminate]. }
  destruct (String.eqb _ ""); [| discriminate].
  unfold decodeLayerXML. destruct (negb _); discriminate.
Qed.

(** [Read] does not panic on a map whose width and height are not negative
    and whose cells, four bytes each, fit an allocation, when the decoders
    of the other packages do not: it returns a map or an error. *)
Theorem Read_no_Panic (r : string) (m0 : Map) :
  xml_Decode r = Ok m0 ->
  (forall s, base64_decode s <> Panic) ->
  (forall s, gzip_inflate s <> Panic) -> (forall s, zlib_inflate s <> Panic) ->
  0 <= Map_Width m0 -> 0 <= Map_Height m0 ->
  4 * (Map_Width m0 * Map_Height m0) <= maxAlloc ->
  Read' r <> Panic.
Proof.
  intros Hdec Hb64 Hgz Hzl Hw Hh Halloc. unfold Read, decodeLayers.
  rewrite Hdec. cbn [bind]. destruct (Map_Infinite m0 =? 1); [discriminate |].
  assert (Hloop : forall layers, decodeLayers_loop' m0 layers <> Panic).
  { induction layers as [| l rest IH]; cbn [decodeLayers_loop]; [discriminate |].
    pose proof (Layer_decode_no_Panic l _ _ Hb64 Hgz Hzl Hw Hh Halloc) as Hp.
    destruct (Layer_decode' l (Map_Width m0) (Map_Height m0)) as [gids | |];
      cbn [bind]; [| discriminate | contradiction].
    pose proof (decodeGIDs_no_Panic m0 gids) as Hg.
    destruct (decodeGIDs m0 gids); cbn [bind]; [| discriminate | contradiction].
    destruct (decodeLayers_loop' m0 rest); cbn [bind];
      [discriminate | discriminate | contradiction]. }
  specialize (Hloop (Map_Layers m0)).
  destruct (decodeLayers_loop' m0 (Map_Layers m0)); cbn [bind];
    [discriminate | discriminate | contradiction].
Qed.

End LoadInvariants.

(** ** [Layer.decode]: the two errors of unknown tags *)

Section TagProperties.

Variable bytes_TrimSpace : string -> string.
Variable base64_decode : string -> result (list byte).
Variable gzip_inflate : string -> result (list byte).
Variable zlib_inflate : string -> result (list byte).

Local Abbreviation decodeBase64' :=
  (decodeBase64 bytes_TrimSpace base64_decode gzip_inflate zlib_inflate).
Local Abbreviation Layer_decode' :=
  (Layer_decode bytes_TrimSpace base64_decode gzip_inflate zlib_inflate).

Lemma decodeCSV_Err_NumError (d : Data) (e : error) :
  decodeCSV d = Err e -> exists token kind, e = NumError "ParseUint" token kind.
Proof.
  unfold decodeCSV. intros He.
  destruct (decodeCSV_loop_Err _ (strings_Split_cleaner (Data_RawData d))) as (_ & H).
  destruct (H e He) as (token & _ & [(_ & ->) | (_ & _ & ->)]); by eexists _, _.
Qed.

(** The encoding and compression tags are compared as they are written: an
    encoding other than "csv", "base64" and the empty one gives
    UnknownEncodingError, and a base64 layer with a compression other than
    "gzip", "zlib" and the empty one gives UnknownCompressionError, before
    anything is decoded.  When the decoders of the other packages do not
    return these two errors, they have no other cause. *)
Theorem Layer_decode_unknown_tags (l : Layer) (width height : Z) :
  let encoding := Data_Encoding (Layer_Data l) in
  let compression := Data_Compression (Layer_Data l) in
  let known_encoding := encoding = "csv" \/ encoding = "base64" \/ encoding = "" in
  let known_compression :=
    compression = "gzip" \/ compression = "zlib" \/ compression = "" in
  (~ known_encoding -> Layer_decode' l width height = Err UnknownEncodingError) /\
  (encoding = "base64" -> ~ known_compression ->
   Layer_decode' l width height = Err UnknownCompressionError) /\
  ((forall s e, base64_decode s = Err e ->
                e <> UnknownEncodingError /\ e <> UnknownCompressionError) ->
   (forall s e, gzip_inflate s = Err e ->
                e <> UnknownEncodingError /\ e <> UnknownCompressionError) ->
   (forall s e, zlib_inflate s = Err e ->
                e <> UnknownEncodingError /\ e <> UnknownCompressionError) ->
   (Layer_decode' l width height = Err UnknownEncodingError -> ~ known_encoding) /\
   (Layer_decode' l width height = Err UnknownCompressionError ->
    encoding = "base64" /\ ~ known_compression)).
Proof.
  intros encoding compression known_encoding known_compression.
  subst known_encoding known_compression. unfold Layer_decode. fold encoding.
  assert (Hcsv : forall e, decodeLayerCSV l width height = Err e ->
            e <> UnknownEncodingError /\ e <> UnknownCompressionError).
  { intros e. unfold decodeLayerCSV.
    destruct (decodeCSV (Layer_Data l)) as [gids | e' |] eqn:Hd; cbn [bind];
      [| | discriminate].
    - destruct (negb _); [| discriminate]. intros [= <-]. by split.
    - intros [= <-]. apply decodeCSV_Err_NumError in Hd.
      destruct Hd as (token & kind & ->). by split. }
  assert (Hxml : forall e, decodeLayerXML l width height = Err e ->
            e <> UnknownEncodingError /\ e <> UnknownCompressionError).
  { intros e. unfold decodeLayerXML. destruct (negb _); [| discriminate].
    intros [= <-]. by split. }
  destruct (String.eqb_spec encoding "csv") as [Hc | Hc].
  { split; [intros H; exfalso; apply H; by left |].
    split; [intros H; congruence |]. intros _ _ _.
    split; intros He; apply Hcsv in He; by destruct He. }
  destruct (String.eqb_spec encoding "base64") as [Hb | Hb].
  { split; [intros H; exfalso; apply H; right; by left |].
    unfold decodeLayerBase64, decodeBase64. fold compression.
    destruct (String.eqb_spec compression "gzip") as [Hg | Hg];
      [| destruct (String.eqb_spec compression "zlib") as [Hz | Hz];
         [| destruct (String.eqb_spec compression "") as [Hn | Hn]]].
    4: { split; [reflexivity |]. intros _ _ _. split; [discriminate |].
         intros _. split; [exact Hb |]. intros [? | [? | ?]]; contradiction. }
    all: split; [intros _ H; exfalso; apply H; tauto |].
    all: intros Hb64 Hgz Hzl.
    all: assert (Hbytes : forall dataBytes e,
           decodeLayerBase64_bytes dataBytes width height = Err e ->
           e <> UnknownEncodingError /\ e <> UnknownCompressionError)
      by (intros dataBytes e He; apply decodeLayerBase64_bytes_Err in He;
          destruct He as (-> & _); by split).
    - destruct (gzip_inflate (bytes_TrimSpace (Data_RawData (Layer_Data l))))
        as [dataBytes | e1 |] eqn:Hi; cbn [bind].
      + split; intros He; apply Hbytes in He; by destruct He.
      + apply Hgz in Hi. destruct Hi as (H1 & H2). split; intros [= ->]; contradiction.
      + split; discriminate.
    - destruct (zlib_inflate (bytes_TrimSpace (Data_RawData (Layer_Data l))))
        as [dataBytes | e1 |] eqn:Hi; cbn [bind].
      + split; intros He; apply Hbytes in He; by destruct He.
      + apply Hzl in Hi. destruct Hi as (H1 & H2). split; intros [= ->]; contradiction.
      + split; discriminate.
    - destruct (base64_decode (bytes_TrimSpace (Data_RawData (Layer_Data l))))
        as [dataBytes | e0 |] eqn:H64; cbn [bind].
      + split; intros He; apply Hbytes in He; by destruct He.
      + apply Hb64 in H64. destruct H64 as (H1 & H2).
        split; intros [= ->]; contradiction.
      + split; discriminate. }
  destruct (String.eqb_spec encoding "") as [Hx | Hx].
  { split; [intros H; exfalso; apply H; right; by right |].
    split; [intros H; congruence |]. intros _ _ _.
    split; intros He; apply Hxml in He; by destruct He. }
  split; [reflexivity |]. split; [intros H; congruence |]. intros _ _ _.
  split; [| discriminate]. intros _ [? | [? | ?]]; contradiction.
Qed.

End TagProperties.

Lemma Layer_decode_unknown_tags_witness :
  Layer_decode plain_TrimSpace base64_std no_inflate no_inflate
    (sample_layer "CSV" "" "1,2,3,4" []) 2 2 = Err UnknownEncodingError /\
  Layer_decode plain_TrimSpace base64_std no_inflate no_inflate
    (sample_layer "base64" "lz4" "AQAAAA" []) 2 2 = Err UnknownCompressionError.
Proof.
  split.
  - destruct (Layer_decode_unknown_tags plain_TrimSpace base64_std no_inflate
                no_inflate (sample_layer "CSV" "" "1,2,3,4" []) 2 2) as (H & _).
    apply H. simpl. intros [? | [? | ?]]; discriminate.
  - destruct (Layer_decode_unknown_tags plain_TrimSpace base64_std no_inflate
                no_inflate (sample_layer "base64" "lz4" "AQAAAA" []) 2 2)
      as (_ & H & _).
    apply H; [reflexivity |]. simpl. intros [? | [? | ?]]; discriminate.
Defined.

(** ** [decodePoints]: counts and round trip *)

Lemma length_strings_Split (s : string) (sep : ascii) :
  length (strings_Split s sep) = S (count_char sep s).
Proof.
  induction s as [| c rest IH]; [reflexivity |].
  cbn [strings_Split count_char].
  destruct (Ascii.eqb c sep); [simpl; by rewrite IH |].
  destruct (strings_Split rest sep) as [| piece pieces]; [discriminate |].
  simpl in *. lia.
Qed.

(** A character other than the separator occurs in the pieces as often as
    in the string. *)
Lemma count_char_strings_Split (c sep : ascii) (s : string) :
  c <> sep ->
  count_char c s = foldr (fun piece n => (count_char c piece + n)%nat) 0%nat
                     (strings_Split s sep).
Proof.
  intros Hne. induction s as [| c' rest IH]; [reflexivity |].
  cbn [strings_Split count_char].
  destruct (Ascii.eqb_spec c' sep) as [-> | Hsep].
  - destruct (Ascii.eqb_spec sep c) as [Heq | _]; [congruence |].
    simpl. exact IH.
  - destruct (strings_Split rest sep) as [| piece pieces] eqn:Hs.
    + pose proof (length_strings_Split rest sep) as Hl. rewrite Hs in Hl. discriminate.
    + simpl in *. lia.
Qed.

Lemma point_token_one_comma (token : string) (p : Point) :
  point_token token p -> count_char "," token = 1%nat.
Proof.
  intros (cx & cy & Hsplit & _).
  pose proof (length_strings_Split token ",") as Hl. rewrite Hsplit in Hl.
  simpl in Hl. lia.
Qed.

(** A successful [decodePoints] returns one point for each piece between
    the spaces and never an empty sequence, and the input has as many commas
    as points. *)
Theorem decodePoints_counts (s : string) (points : list Point) :
  decodePoints s = Ok points ->
  length points = S (count_char " " s) /\
  count_char "," s = length points /\
  points <> [].
Proof.
  intros Hrun. unfold decodePoints in Hrun. apply decodePoints_loop_Ok in Hrun.
  assert (Hlen : length points = S (count_char " " s)).
  { rewrite <- (Forall2_length _ _ _ Hrun). apply length_strings_Split. }
  split; [exact Hlen |]. split; [| destruct points; [discriminate | discriminate]].
  rewrite (count_char_strings_Split "," " " s) by discriminate.
  clear Hlen. induction Hrun as [| token p tokens points' Htoken _ IH]; [reflexivity |].
  simpl. rewrite IH, (point_token_one_comma token p Htoken). reflexivity.
Qed.

Lemma decodePoints_counts_witness :
  count_char "," "0,0 10,0 10,10" = 3%nat.
Proof.
  exact (proj1 (proj2 (decodePoints_counts "0,0 10,0 10,10"
    [{| Point_X := 0; Point_Y := 0 |}; {| Point_X := 10; Point_Y := 0 |};
     {| Point_X := 10; Point_Y := 10 |}] eq_refl))).
Defined.

Lemma dec_value_bound (cs : string) (a : Z) :
  all_digits cs = true -> 0 <= a ->
  dec_value cs a < (a + 1) * 10 ^ Z.of_nat (String.length cs).
Proof.
  revert a. induction cs as [| c rest IH]; intros a Hd Ha.
  - simpl. lia.
  - simpl in Hd. apply andb_true_iff in Hd. destruct Hd as (Hc & Hrest).
    pose proof (is_digit_val c Hc) as Hdig.
    cbn [dec_value String.length]. rewrite Nat2Z.inj_succ, Z.pow_succ_r by lia.
    specialize (IH (a * 10 + (byte_val c - byte_val "0")) Hrest ltac:(lia)).
    pose proof (Z.pow_pos_nonneg 10 (Z.of_nat (String.length rest)) ltac:(lia)
                  ltac:(lia)).
    nia.
Qed.

(** The fast path of [Atoi] on digits whose number fits an [int]. *)
Lemma Atoi_loop_value (s0 cs : string) (a : Z) :
  all_digits cs = true -> 0 <= a -> dec_value cs a < 2 ^ 63 ->
  Atoi_loop s0 cs a = Ok (dec_value cs a).
Proof.
  revert a. induction cs as [| c rest IH]; intros a Hd Ha Hv; [reflexivity |].
  simpl in Hd. apply andb_true_iff in Hd. destruct Hd as (Hc & Hrest).
  pose proof (is_digit_val c Hc) as Hdig.
  cbn [Atoi_loop dec_value] in *. rewrite Hc.
  pose proof (dec_value_ge rest (a * 10 + (byte_val c - byte_val "0")) Hrest
                ltac:(lia)) as Hge.
  unfold int_add, int_mul.
  rewrite (wrap_int_small (a * 10)) by (unfold is_int; lia).
  rewrite wrap_int_small by (unfold is_int; lia).
  apply IH; [exact Hrest | lia | exact Hv].
Qed.

Lemma length_decimal_acc (fuel : nat) (n : Z) (acc : string) :
  (String.length (decimal_acc fuel n acc) <= fuel + String.length acc)%nat.
Proof.
  revert n acc. induction fuel as [| fuel IH]; intros n acc; simpl; [lia |].
  destruct (n / 10 =? 0); [simpl; lia |].
  specialize (IH (n / 10) (String (digit_char (n mod 10)) acc)). simpl in IH. lia.
Qed.

Lemma is_digit_not_sign (c : ascii) :
  is_digit c = true -> Ascii.eqb c "-" = false /\ Ascii.eqb c "+" = false.
Proof.
  intros Hc. split.
  - destruct (Ascii.eqb_spec c "-"%char) as [-> | _]; [discriminate | reflexivity].
  - destruct (Ascii.eqb_spec c "+"%char) as [-> | _]; [discriminate | reflexivity].
Qed.

(** [Atoi] on digits that denote an [int]. *)
Lemma Atoi_digits (s : string) :
  s <> "" -> all_digits s = true -> dec_value s 0 < 2 ^ 63 ->
  Atoi s = Ok (dec_value s 0).
Proof.
  intros Hne Hd Hv. destruct s as [| c rest]; [contradiction |].
  pose proof Hd as Hd'. simpl in Hd'. apply andb_true_iff in Hd'.
  destruct Hd' as (Hc & _). destruct (is_digit_not_sign c Hc) as (Hminus & Hplus).
  pose proof (dec_value_ge (String c rest) 0 Hd ltac:(lia)) as Hge.
  unfold Atoi. set (s := String c rest) in *.
  destruct ((0 <? Z.of_nat (String.length s)) && (Z.of_nat (String.length s) <? 19)).
  - unfold s at 1. rewrite Hminus, Hplus. cbn [orb]. fold s.
    destruct (Z.ltb_spec (Z.of_nat (String.length s)) 1) as [Hl |].
    { unfold s in Hl. simpl String.length in Hl. lia. }
    rewrite Atoi_loop_value by (try assumption; lia). reflexivity.
  - unfold ParseInt. unfold s at 1. rewrite Hminus, Hplus. cbn [orb]. fold s.
    unfold ParseUint. unfold s at 1. fold s.
    change (if 0 =? 0 then 64 else 0) with 64.
    rewrite ParseUint_loop_value;
      [| exact Hd | lia | unfold maxUint64; lia | lia].
    cbn [negb andb].
    destruct (Z.geb_spec (dec_value s 0) (2 ^ 63)); [lia | reflexivity].
Qed.

(** [Atoi] on a minus sign and digits that denote at most [2 ^ 63]. *)
Lemma Atoi_minus_digits (digits : string) :
  digits <> "" -> all_digits digits = true -> dec_value digits 0 <= 2 ^ 63 ->
  Atoi (String "-" digits) = Ok (- dec_value digits 0).
Proof.
  intros Hne Hd Hv.
  pose proof (dec_value_ge digits 0 Hd ltac:(lia)) as Hge.
  unfold Atoi. set (s := String "-" digits).
  destruct (Z.ltb_spec 0 (Z.of_nat (String.length s))) as [_ | Hl];
    [| unfold s in Hl; simpl String.length in Hl; lia].
  destruct (Z.ltb_spec (Z.of_nat (String.length s)) 19) as [Hshort | Hlong]; cbn [andb].
  - unfold s at 1. cbn [Ascii.eqb Bool.eqb orb]. fold s.
    destruct (Z.ltb_spec (Z.of_nat (String.length digits)) 1) as [Hl |].
    { destruct digits; [contradiction | simpl String.length in Hl; lia]. }
    assert (Hsmall : dec_value digits 0 < 2 ^ 63).
    { pose proof (dec_value_bound digits 0 Hd ltac:(lia)) as Hb.
      unfold s in Hshort. simpl String.length in Hshort.
      assert (10 ^ Z.of_nat (String.length digits) <= 10 ^ 17)
        by (apply Z.pow_le_mono_r; lia).
      lia. }
    rewrite Atoi_loop_value by (try assumption; lia). reflexivity.
  - unfold ParseInt. unfold s at 1. cbn [Ascii.eqb Bool.eqb orb]. fold s.
    unfold ParseUint. destruct digits as [| c rest]; [contradiction |].
    change (if 0 =? 0 then 64 else 0) with 64.
    rewrite ParseUint_loop_value;
      [| exact Hd | lia | unfold maxUint64; lia | lia].
    cbn [negb andb].
    destruct (Z.gtb_spec (dec_value (String c rest) 0) (2 ^ 63)); [lia | reflexivity].
Qed.

Lemma decimal_acc_19 (n : Z) :
  0 <= n <= 2 ^ 63 ->
  decimal_acc 19 n "" <> "" /\ all_digits (decimal_acc 19 n "") = true /\
  dec_value (decimal_acc 19 n "") 0 = n.
Proof.
  intros Hn. split; [exact (decimal_acc_S_not_empty 18 n "") |].
  split; [by apply decimal_acc_digits; [lia |] |].
  rewrite decimal_acc_value; [reflexivity |].
  change (10 ^ Z.of_nat 19) with 10000000000000000000. lia.
Qed.

(** Reading back the numeral of an [int]. *)
Lemma Atoi_FormatInt (n : Z) : is_int n -> Atoi (FormatInt n) = Ok n.
Proof.
  intros [Hlo Hhi]. unfold FormatInt. destruct (Z.ltb_spec n 0) as [Hneg | Hpos].
  - destruct (decimal_acc_19 (- n) ltac:(lia)) as (Hne & Hd & Hv).
    rewrite Atoi_minus_digits by (try assumption; lia). rewrite Hv. f_equal. lia.
  - destruct (decimal_acc_19 n ltac:(lia)) as (Hne & Hd & Hv).
    rewrite Atoi_digits by (try assumption; lia). by rewrite Hv.
Qed.

Lemma count_char_append (c : ascii) (a b : string) :
  count_char c (a ++ b) = (count_char c a + count_char c b)%nat.
Proof. induction a as [| c' a IH]; simpl; [reflexivity | rewrite IH; lia]. Qed.

Lemma strings_Split_none (token : string) (sep : ascii) :
  count_char sep token = 0%nat -> strings_Split token sep = [token].
Proof.
  induction token as [| c rest IH]; [reflexivity |].
  cbn [count_char strings_Split].
  destruct (Ascii.eqb c sep); [discriminate |]. intros H. by rewrite IH.
Qed.

Lemma strings_Split_append (token rest : string) (sep : ascii) :
  count_char sep token = 0%nat ->
  strings_Split (token ++ String sep rest) sep = token :: strings_Split rest sep.
Proof.
  induction token as [| c token' IH].
  - intros _. cbn [String.append strings_Split]. by rewrite Ascii.eqb_refl.
  - cbn [count_char String.append strings_Split].
    destruct (Ascii.eqb c sep); [discriminate |]. intros H. by rewrite IH.
Qed.

Lemma count_char_digits (c : ascii) (s : string) :
  is_digit c = false -> all_digits s = true -> count_char c s = 0%nat.
Proof.
  intros Hc. induction s as [| c' rest IH]; [reflexivity |].
  simpl. intros Hd. apply andb_true_iff in Hd. destruct Hd as (Hc' & Hrest).
  destruct (Ascii.eqb_spec c' c) as [-> | _]; [congruence | by apply IH].
Qed.

Lemma count_char_FormatInt (c : ascii) (n : Z) :
  is_digit c = false -> c <> "-"%char -> count_char c (FormatInt n) = 0%nat.
Proof.
  intros Hc Hminus. unfold FormatInt. destruct (n <? 0) eqn:Hn.
  - cbn [count_char]. destruct (Ascii.eqb_spec "-"%char c) as [Heq | _]; [congruence |].
    apply count_char_digits; [exact Hc |]. apply decimal_acc_digits; [lia | reflexivity].
  - apply count_char_digits; [exact Hc |]. apply decimal_acc_digits; [lia | reflexivity].
Qed.

Lemma point_token_encodePoint (p : Point) :
  is_int (Point_X p) -> is_int (Point_Y p) -> point_token (encodePoint p) p.
Proof.
  intros Hx Hy. exists (FormatInt (Point_X p)), (FormatInt (Point_Y p)).
  split; [| split; by apply Atoi_FormatInt].
  unfold encodePoint. rewrite strings_Split_append
    by (by apply count_char_FormatInt).
  by rewrite strings_Split_none by (by apply count_char_FormatInt).
Qed.

Lemma count_space_encodePoint (p : Point) : count_char " " (encodePoint p) = 0%nat.
Proof.
  unfold encodePoint. rewrite count_char_append. cbn [count_char].
  rewrite !count_char_FormatInt by done. reflexivity.
Qed.

Lemma strings_Split_encodePoints (points : list Point) :
  points <> [] ->
  strings_Split (encodePoints points) " " = map encodePoint points.
Proof.
  induction points as [| p rest IH]; [contradiction |]. intros _.
  destruct rest as [| p' rest'].
  - simpl. apply strings_Split_none, count_space_encodePoint.
  - change (encodePoints (p :: p' :: rest'))
      with (encodePoint p ++ String " " (encodePoints (p' :: rest'))).
    rewrite strings_Split_append by apply count_space_encodePoint.
    rewrite IH by discriminate. reflexivity.
Qed.

(** Round trip of the points attribute: the numerals of the coordinates of
    a sequence of points, not empty, with a comma inside and a space
    between the points, decode to the points, for a polygon and for a
    polyline. *)
Theorem decodePoints_encodePoints (points : list Point) :
  points <> [] ->
  Forall (fun p => is_int (Point_X p) /\ is_int (Point_Y p)) points ->
  decodePoints (encodePoints points) = Ok points /\
  Polygon_Decode {| Polygon_Points := encodePoints points |} = Ok points /\
  PolyLine_Decode {| PolyLine_Points := encodePoints points |} = Ok points.
Proof.
  intros Hne Hint.
  assert (H : decodePoints (encodePoints points) = Ok points).
  { unfold decodePoints. rewrite strings_Split_encodePoints by exact Hne.
    apply decodePoints_loop_Ok.
    change (map encodePoint points) with (encodePoint <$> points).
    rewrite Forall2_fmap_l. apply Forall_Forall2_diag.
    eapply Forall_impl; [exact Hint |]. intros p [Hx Hy].
    by apply point_token_encodePoint. }
  by repeat split.
Qed.

Lemma decodePoints_encodePoints_witness :
  encodePoints [{| Point_X := -3; Point_Y := 40 |};
                {| Point_X := 9223372036854775807; Point_Y := -9223372036854775808 |}]
  = "-3,40 9223372036854775807,-9223372036854775808" /\
  decodePoints "-3,40 9223372036854775807,-9223372036854775808"
  = Ok [{| Point_X := -3; Point_Y := 40 |};
        {| Point_X := 9223372036854775807; Point_Y := -9223372036854775808 |}].
Proof.
  split; [reflexivity |].
  destruct (decodePoints_encodePoints
              [{| Point_X := -3; Point_Y := 40 |};
               {| Point_X := 9223372036854775807; Point_Y := -9223372036854775808 |}])
    as (H & _).
  - discriminate.
  - repeat constructor; simpl; lia.
  - exact H.
Defined.

(** ** Objects: one shape at most *)

(** Whatever the stored type of an object is, at most one of the three
    queries returns without an error; once [hydrateType] has run, all three
    fail exactly for an object with a polygon or a polyline element. *)
Theorem shape_queries_exclusive (o : Object) :
  ~ (snd (GetEllipse o) = None /\ snd (GetPoint o) = None) /\
  ~ (snd (GetEllipse o) = None /\ snd (GetRect o) = None) /\
  ~ (snd (GetPoint o) = None /\ snd (GetRect o) = None) /\
  ((snd (GetEllipse (hydrateType o)) <> None /\
    snd (GetPoint (hydrateType o)) <> None /\
    snd (GetRect (hydrateType o)) <> None) <->
   (Object_Polygon o <> None \/ Object_PolyLine o <> None)).
Proof.
  split; [| split; [| split]].
  - unfold GetEllipse, GetPoint. destruct (GetType o); simpl; intros [? ?]; discriminate.
  - unfold GetEllipse, GetRect. destruct (GetType o); simpl; intros [? ?]; discriminate.
  - unfold GetPoint, GetRect. destruct (GetType o); simpl; intros [? ?]; discriminate.
  - unfold GetEllipse, GetPoint, GetRect. rewrite GetType_hydrateType.
    unfold shape_kind.
    destruct (Object_Polygon o) as [pg |], (Object_PolyLine o) as [pl |],
      (Object_Ellipse o), (Object_Point o); simpl;
      (split; [intros (H1 & H2 & H3); try (left; discriminate);
               try (right; discriminate); try contradiction
              | intros [H | H]; try contradiction;
                repeat split; discriminate]).
Qed.

(** [hydrateType] looks at the sub-elements only: a type stored before is
    overwritten, and running it again changes nothing. *)
Theorem hydrateType_stable (o : Object) (t : ObjectType) :
  hydrateType (Object_with_objectType o t) = hydrateType o /\
  hydrateType (hydrateType o) = hydrateType o /\
  GetType (hydrateType (Object_with_objectType o t)) = shape_kind o.
Proof.
  split; [| split].
  - unfold hydrateType. cbn [Object_with_objectType Object_Polygon Object_PolyLine
      Object_Ellipse Object_Point].
    destruct (Object_Polygon o), (Object_PolyLine o), (Object_Ellipse o),
      (Object_Point o); reflexivity.
  - unfold hydrateType.
    destruct (Object_Polygon o) eqn:Hpg, (Object_PolyLine o) eqn:Hpl,
      (Object_Ellipse o) eqn:He, (Object_Point o) eqn:Hp;
      cbn [Object_with_objectType Object_Polygon Object_PolyLine Object_Ellipse
             Object_Point];
      rewrite ?Hpg, ?Hpl, ?He, ?Hp; reflexivity.
  - rewrite GetType_hydrateType. unfold shape_kind.
    cbn [Object_with_objectType Object_Polygon Object_PolyLine Object_Ellipse
           Object_Point]. reflexivity.
Qed.

(** ** Examples of loads *)

Lemma Read_Ok_layers_witness :
  match Read plain_TrimSpace base64_std no_inflate no_inflate
          (parses_to sample_three_layers) "" with
  | Ok m =>
      Map_Tilesets m = Map_Tilesets sample_three_layers /\
      Forall (fun l => Z.of_nat (length (Layer_DecodedTiles l)) = 4) (Map_Layers m)
  | _ => False
  end.
Proof.
  destruct (Read plain_TrimSpace base64_std no_inflate no_inflate
              (parses_to sample_three_layers) "") as [m | e |] eqn:Hread;
    [| vm_compute in Hread; discriminate ..].
  destruct (Read_Ok_layers plain_TrimSpace base64_std no_inflate no_inflate
              (parses_to sample_three_layers) "" sample_three_layers m eq_refl Hread)
    as (Hts & _ & _ & Hlayers).
  split; [exact Hts |].
  rewrite Forall_lookup. intros i l Hi.
  destruct (Forall2_lookup_r _ _ _ _ _ Hlayers Hi) as (l0 & _ & _ & _ & Hlen & _).
  exact Hlen.
Defined.

Lemma Read_first_failure_witness :
  Read plain_TrimSpace base64_std no_inflate no_inflate
    (parses_to sample_unknown_encoding) "" = Err UnknownEncodingError /\
  Read plain_TrimSpace base64_std no_inflate no_inflate
    (parses_to sample_invalid_gid) "" = Err InvalidGIDError.
Proof.
  split.
  - destruct (Read_first_failure plain_TrimSpace base64_std no_inflate no_inflate
                (parses_to sample_unknown_encoding) "" sample_unknown_encoding
                [sample_layer "csv" "" "1,2,0,3" []] []
                (sample_layer "hex" "" "00" [])) as (Herr & _).
    + reflexivity.
    + simpl. lia.
    + reflexivity.
    + repeat constructor. eexists _, _. split; reflexivity.
    + apply Herr. reflexivity.
  - destruct (Read_first_failure plain_TrimSpace base64_std no_inflate no_inflate
                (parses_to sample_invalid_gid) "" sample_invalid_gid
                [] [] (sample_layer "csv" "" "1,2147483648,0,0" [])) as (_ & Hgid).
    + reflexivity.
    + simpl. lia.
    + reflexivity.
    + constructor.
    + apply (Hgid [1; 2147483648; 0; 0]); [reflexivity |].
      apply Exists_cons_tl, Exists_cons_hd. reflexivity.
Defined.

Lemma Read_Empty_Tileset_witness :
  match Read plain_TrimSpace base64_std no_inflate no_inflate
          (parses_to sample_three_layers) "" with
  | Ok m =>
      match Map_Layers m with
      | [la; lb; lc] =>
          (exists t, t ∈ Layer_DecodedTiles la /\ IsNil t = false) /\
          (Layer_Empty lb = true <->
           forall t, t ∈ Layer_DecodedTiles lb -> IsNil t = true) /\
          forall t, t ∈ Layer_DecodedTiles lc -> IsNil t = true
      | _ => False
      end
  | _ => False
  end.
Proof.
  destruct (Read plain_TrimSpace base64_std no_inflate no_inflate
              (parses_to sample_three_layers) "") as [m | e |] eqn:Hread;
    [| vm_compute in Hread; discriminate ..].
  pose proof (fun l => Read_Empty_Tileset plain_TrimSpace base64_std no_inflate
                no_inflate (parses_to sample_three_layers) "" sample_three_layers m l
                eq_refl ltac:(repeat constructor) Hread) as T.
  vm_compute in Hread. injection Hread as <-.
  cbn [Map_Layers] in *.
  split; [| split].
  - match goal with |- exists t, t ∈ Layer_DecodedTiles ?l /\ _ =>
      destruct (T l ltac:(apply list_elem_of_here)) as (_ & T2 & _) end.
    by apply (T2 0%nat).
  - match goal with |- Layer_Empty ?l = _ <-> _ =>
      destruct (T l ltac:(apply list_elem_of_further, list_elem_of_here))
        as (T1 & _) end.
    exact T1.
  - match goal with |- forall t, t ∈ Layer_DecodedTiles ?l -> _ =>
      destruct (T l ltac:(do 2 apply list_elem_of_further; apply list_elem_of_here))
        as (T1 & _) end.
    by apply T1.
Defined.

Lemma Read_no_Panic_witness :
  Read plain_TrimSpace reject_base64 no_inflate no_inflate
    (parses_to sample_three_layers) "" <> Panic.
Proof.
  apply (Read_no_Panic plain_TrimSpace reject_base64 no_inflate no_inflate
           (parses_to sample_three_layers) "" sample_three_layers).
  - reflexivity.
  - discriminate.
  - discriminate.
  - discriminate.
  - simpl. lia.
  - simpl. lia.
  - vm_compute. discriminate.
Defined.
